(** * Ember Mug: the Bluetooth session of [mug.py] and the write service
    and discovery utility of [services.py], as a shallow embedding.

    The Python code is asynchronous and talks to a BLE peripheral through a
    [BleakClient].  Here

    - Python [float] is IEEE binary64, modelled by the primitive floats;
    - a [bytearray] is a [list byte];
    - an [async] method is a function in a state-and-exception monad over a
      [World] (the attributes of the [EmberMug] object, the chronological
      trace of everything the method did to the outside, the tasks handed to
      the host scheduler);
    - the peripheral and the host are an [Env]: what each client call and the
      observer callback answer, as a function of how many outside calls were
      made before;
    - unbounded recursion and the [while self._loop] loop take fuel: a run
      is followed for as many nested calls, or passes, as there is fuel, and
      [OutOfFuel] says no more than that it was not followed further.  The
      interpreter's own limit on the depth of nested calls is not
      modelled, so nothing is stated here about runs of [connect] that nest
      without bound. *)

From Stdlib Require Import ZArith List Bool Lia String Ascii.
From Stdlib Require Import Strings.Byte.
From Stdlib Require Import Floats.PrimFloat Floats.FloatOps Floats.SpecFloat.
From Stdlib Require Import Numbers.Cyclic.Int63.Uint63.
Import ListNotations.

Open Scope Z_scope.

(* ------------------------------------------------------------------ *)
(** ** Exceptions and results *)

(** Instances of Python's [Exception] that the code can meet.  [BleakError]
    is the transport error of the BLE library; the others are raised by the
    interpreter itself (unpacking, indexing, integer conversion) or stand for
    any further [Exception] a collaborator may raise. *)
Inductive exn : Type :=
| BleakError
| ValueError
| IndexError
| OverflowError
| OtherException.

Definition is_BleakError (e : exn) : bool :=
  match e with BleakError => true | _ => false end.

(** The answer of a call that either returns or raises. *)
Inductive reply (A : Type) : Type :=
| Ok (a : A)
| Err (e : exn).
Arguments Ok {A} a.
Arguments Err {A} e.

(* ------------------------------------------------------------------ *)
(** ** The Python numeric operations the code uses *)

Module Py.

(** [int.from_bytes(bs, byteorder="little", signed=False)] *)
Fixpoint int_from_bytes_little (bs : list byte) : Z :=
  match bs with
  | [] => 0
  | b :: rest => Z.of_N (Byte.to_N b) + 256 * int_from_bytes_little rest
  end.

(** [float(n)] for an [int]: the nearest binary64 (ties to even), and
    [OverflowError] when [n] is too large for a float. *)
Definition float_of_int (n : Z) : reply float :=
  let x := SF2Prim (binary_normalize prec emax n 0 false) in
  match Prim2SF x with
  | S754_infinity _ => Err OverflowError
  | _ => Ok x
  end.

(** The integer nearest to [n / 2^k], ties to the even one ([0 <= n]). *)
Definition div_pow2_half_even (n : Z) (k : Z) : Z :=
  let d := Z.pow 2 k in
  let q := Z.div n d in
  let r := Z.modulo n d in
  match Z.compare (2 * r) d with
  | Lt => q
  | Gt => q + 1
  | Eq => if Z.even q then q else q + 1
  end.

(** The exact value [m * 2^e] of a finite float, scaled by [scale] and
    rounded to the nearest integer, ties to even. *)
Definition scaled_nearest (scale : Z) (m : positive) (e : Z) : Z :=
  if 0 <=? e then scale * Z.pos m * Z.pow 2 e
  else div_pow2_half_even (scale * Z.pos m) (- e).

(** [round(x, 2)]: CPython rounds the exact binary value of [x] to two
    decimals (ties to even) and returns the float nearest to that decimal;
    zeros, infinities and NaN are returned unchanged. *)
Definition round2 (x : float) : float :=
  match Prim2SF x with
  | S754_finite s m e =>
      let n := scaled_nearest 100 m e in
      match n with
      | Zpos p =>
          SF2Prim (SFdiv prec emax (S754_finite s p 0) (S754_finite false 100 0))
      | _ => SF2Prim (S754_zero s)
      end
  | _ => x
  end.

(** [round(x)] with no digits: the nearest [int], ties to even;
    [ValueError] on NaN and [OverflowError] on an infinity. *)
Definition round_int (x : float) : reply Z :=
  match Prim2SF x with
  | S754_zero _ => Ok 0
  | S754_finite s m e =>
      let n := scaled_nearest 1 m e in Ok (if s then - n else n)
  | S754_infinity _ => Err OverflowError
  | S754_nan => Err ValueError
  end.

(** [int(x)] for a float: truncation toward zero; [ValueError] on NaN and
    [OverflowError] on an infinity. *)
Definition int_of_float (x : float) : reply Z :=
  match Prim2SF x with
  | S754_zero _ => Ok 0
  | S754_finite s m e =>
      let n := if 0 <=? e then Z.pos m * Z.pow 2 e
               else Z.div (Z.pos m) (Z.pow 2 (- e)) in
      Ok (if s then - n else n)
  | S754_infinity _ => Err OverflowError
  | S754_nan => Err ValueError
  end.

Definition byte_of_Z (n : Z) : byte :=
  match Byte.of_N (Z.to_N n) with
  | Some b => b
  | None => x00
  end.

(** [n.to_bytes(2, "little")]: unsigned, [OverflowError] when [n] is
    negative or needs more than two bytes. *)
Definition to_bytes_2_little (n : Z) : reply (list byte) :=
  if (n <? 0) || (65535 <? n) then Err OverflowError
  else Ok [byte_of_Z (Z.modulo n 256); byte_of_Z (Z.div n 256)].

(** One lowercase hexadecimal digit. *)
Definition hex_digit (d : Z) : ascii :=
  if d <? 10 then ascii_of_N (Z.to_N (48 + d))
  else ascii_of_N (Z.to_N (87 + d)).

Fixpoint hex_digits (fuel : nat) (n : Z) (acc : string) : string :=
  match fuel with
  | O => acc
  | S fuel' =>
      let acc' := String (hex_digit (Z.modulo n 16)) acc in
      if n <? 16 then acc' else hex_digits fuel' (Z.div n 16) acc'
  end.

(** The lowercase hexadecimal numeral of [0 <= n]. *)
Definition hex (n : Z) : string :=
  hex_digits (S (Z.to_nat (Z.log2 n))) n EmptyString.

(** [format(n, "02x")]: lowercase hexadecimal, zero-padded to width 2, the
    sign of a negative number counting for the width. *)
Definition format_02x (n : Z) : string :=
  if n <? 0 then String "-"%char (hex (- n))
  else if n <? 16 then String "0"%char (hex n)
  else hex n.

End Py.

(* ------------------------------------------------------------------ *)
(** ** The outside world: characteristics, client calls, log, trace *)

(** Modelled from the spec: the characteristic identifiers of [const.py],
    which is not among the sources.  Only which characteristic is meant
    matters to the session, so they are an enumeration. *)
Inductive Uuid : Type :=
| BATTERY_UUID
| CURRENT_TEMP_UUID
| LED_COLOUR_UUID
| STATE_UUID
| TARGET_TEMP_UUID.

(** The awaited methods of [BleakClient]. *)
Module BleakClient.
Inductive call : Type :=
| is_connected
| connect
| pair
| read_gatt_char (uuid : Uuid)
| write_gatt_char (uuid : Uuid) (data : list byte) (response : bool)
| start_notify (uuid : Uuid)
| stop_notify (uuid : Uuid)
| disconnect.
End BleakClient.

Inductive level : Type := DEBUG | INFO | WARNING | ERROR.

(** The log lines of the two modules, one constructor per format string. *)
Inductive message : Type :=
| Starting_mug_loop
| Unexpected_error_during_loop (e : exn)
| Battery_is_at (percent : float)
| Target_temp (t : float)
| Current_temp (t : float)
| Connected_to
| Init_on_attempt (e : exn) (i : Z)
| Failed_to_connect_after_10_tries
| Try_to_subscribe_to_STATE
| Failed_to_subscribe_to_state_attr
| Unexpected_error_connecting_to_notify (e : exn)
| State_changed (old : option Z) (new : Z)
| Str (e : exn)
| Set_to (temp : float)
| Resp.

(** What a method does that is visible from outside, in order. *)
Inductive event : Type :=
| Awaited (c : BleakClient.call)   (* [await self.client.c(...)] *)
| Callback                         (* [self.async_update_callback()] *)
| Logged (l : level) (m : message)
| Slept (seconds : Z)              (* [await asyncio.sleep(seconds)] *)
| SleepNotAwaited (seconds : Z)    (* [asyncio.sleep(seconds)], coroutine dropped *)
| TaskCreated.                     (* [hass.async_create_task(self.async_run())] *)

(** The peripheral and the host: the answer to each outside call, given the
    number of outside calls made before it. *)
Record Env : Type := {
  env_is_connected : nat -> reply bool;
  env_connect : nat -> reply unit;
  env_pair : nat -> reply unit;
  env_read_gatt_char : Uuid -> nat -> reply (list byte);
  env_write_gatt_char : Uuid -> list byte -> bool -> nat -> reply unit;
  env_start_notify : Uuid -> nat -> reply unit;
  env_stop_notify : Uuid -> nat -> reply unit;
  env_disconnect : nat -> reply unit;
  env_update_callback : nat -> reply unit
}.

(* ------------------------------------------------------------------ *)
(** ** The [EmberMug] object *)

(** The attributes set by [__init__], except the handles ([hass], [client],
    [async_update_callback], which are the [Env]), [mac_address] (only
    logged) and [uuid_debug] (only touched by [update_uuid_debug], which no
    method calls). *)
Record EmberMug : Type := {
  _loop : bool;
  use_metric : bool;
  state : option Z;
  charging : bool;
  led_colour_rgb : list Z;
  current_temp : option float;
  target_temp : option float;
  battery : option float;
  available : bool
}.

Definition set__loop (v : bool) (m : EmberMug) : EmberMug :=
  {| _loop := v; use_metric := use_metric m; state := state m;
     charging := charging m; led_colour_rgb := led_colour_rgb m;
     current_temp := current_temp m; target_temp := target_temp m;
     battery := battery m; available := available m |}.

Definition set_state (v : option Z) (m : EmberMug) : EmberMug :=
  {| _loop := _loop m; use_metric := use_metric m; state := v;
     charging := charging m; led_colour_rgb := led_colour_rgb m;
     current_temp := current_temp m; target_temp := target_temp m;
     battery := battery m; available := available m |}.

Definition set_led_colour_rgb (v : list Z) (m : EmberMug) : EmberMug :=
  {| _loop := _loop m; use_metric := use_metric m; state := state m;
     charging := charging m; led_colour_rgb := v;
     current_temp := current_temp m; target_temp := target_temp m;
     battery := battery m; available := available m |}.

Definition set_current_temp (v : option float) (m : EmberMug) : EmberMug :=
  {| _loop := _loop m; use_metric := use_metric m; state := state m;
     charging := charging m; led_colour_rgb := led_colour_rgb m;
     current_temp := v; target_temp := target_temp m;
     battery := battery m; available := available m |}.

Definition set_target_temp_attr (v : option float) (m : EmberMug) : EmberMug :=
  {| _loop := _loop m; use_metric := use_metric m; state := state m;
     charging := charging m; led_colour_rgb := led_colour_rgb m;
     current_temp := current_temp m; target_temp := v;
     battery := battery m; available := available m |}.

Definition set_battery (v : option float) (m : EmberMug) : EmberMug :=
  {| _loop := _loop m; use_metric := use_metric m; state := state m;
     charging := charging m; led_colour_rgb := led_colour_rgb m;
     current_temp := current_temp m; target_temp := target_temp m;
     battery := v; available := available m |}.

(** The object, what it has done so far, and the session-loop tasks created
    on the host scheduler that have not started yet. *)
Record World : Type := {
  mug : EmberMug;
  calls : nat;
  trace : list event;
  tasks : nat
}.

(* ------------------------------------------------------------------ *)
(** ** The monad of methods *)

Inductive outcome (A : Type) : Type :=
| Returned (a : A)
| Raised (e : exn)
| OutOfFuel.
Arguments Returned {A} a.
Arguments Raised {A} e.
Arguments OutOfFuel {A}.

Definition M (A : Type) : Type := World -> outcome A * World.

Definition ret {A} (a : A) : M A := fun w => (Returned a, w).

Definition bind {A B} (c : M A) (k : A -> M B) : M B :=
  fun w =>
    match c w with
    | (Returned a, w') => k a w'
    | (Raised e, w') => (Raised e, w')
    | (OutOfFuel, w') => (OutOfFuel, w')
    end.

Declare Scope mug_scope.
Delimit Scope mug_scope with mug.
Notation "x <- c ;; k" := (bind c (fun x => k))
  (at level 100, c at next level, right associativity) : mug_scope.
Notation "c ;; k" := (bind c (fun _ => k))
  (at level 100, right associativity) : mug_scope.
Open Scope mug_scope.

Definition raise {A} (e : exn) : M A := fun w => (Raised e, w).

Definition out_of_fuel {A} : M A := fun w => (OutOfFuel, w).

Definition lift {A} (r : reply A) : M A :=
  match r with Ok a => ret a | Err e => raise e end.

(** [try: body  except ...:]; [handler e] is [None] when no clause matches
    [e], which then propagates. *)
Definition try_except {A} (body : M A) (handler : exn -> option (M A)) : M A :=
  fun w =>
    match body w with
    | (Raised e, w') =>
        match handler e with
        | Some h => h w'
        | None => (Raised e, w')
        end
    | r => r
    end.

Definition get_mug : M EmberMug := fun w => (Returned (mug w), w).

Definition modify_mug (f : EmberMug -> EmberMug) : M unit :=
  fun w =>
    (Returned tt,
     {| mug := f (mug w); calls := calls w; trace := trace w; tasks := tasks w |}).

Definition emit (e : event) : M unit :=
  fun w =>
    (Returned tt,
     {| mug := mug w; calls := calls w; trace := trace w ++ [e];
        tasks := tasks w |}).

(** An outside call: it is recorded, consumes one answer of the [Env], and
    returns or raises as that answer says. *)
Definition outside {A} (e : event) (answer : nat -> reply A) : M A :=
  fun w =>
    let w' := {| mug := mug w; calls := S (calls w); trace := trace w ++ [e];
                 tasks := tasks w |} in
    match answer (calls w) with
    | Ok a => (Returned a, w')
    | Err x => (Raised x, w')
    end.

Definition log (l : level) (m : message) : M unit := emit (Logged l m).

(** [await asyncio.sleep(seconds)] suspends the task. *)
Definition await_sleep (seconds : Z) : M unit := emit (Slept seconds).

(** [asyncio.sleep(seconds)] without [await] only builds a coroutine object,
    which is dropped: the task is not suspended. *)
Definition sleep_not_awaited (seconds : Z) : M unit :=
  emit (SleepNotAwaited seconds).

(** [hass.async_create_task(self.async_run())] *)
Definition async_create_task_async_run : M unit :=
  fun w =>
    (Returned tt,
     {| mug := mug w; calls := calls w; trace := trace w ++ [TaskCreated];
        tasks := S (tasks w) |}).

(** [for x in xs: body x] *)
Fixpoint for_each {A} (xs : list A) (body : A -> M unit) : M unit :=
  match xs with
  | [] => ret tt
  | x :: rest => body x ;; for_each rest body
  end.

(* ------------------------------------------------------------------ *)
(** ** The methods of [EmberMug] ([mug.py]) *)

Open Scope float_scope.

(** The float literals of the code; [0.01] is the binary64 nearest to the
    decimal, the others are exact. *)
Definition f_0_01 : float := 0x1.47ae147ae147bp-7.
Definition f_9 : float := 0x1.2p+3.
Definition f_5 : float := 0x1.4p+2.
Definition f_32 : float := 0x1p+5.

(** The arithmetic of [_temp_from_bytes]: raw count times [0.01], to
    Fahrenheit when [use_metric is False], rounded to two decimals. *)
Definition temp_of_raw (metric : bool) (raw : float) : float :=
  let temp := raw * f_0_01 in
  let temp := if metric then temp else (temp * f_9 / f_5) + f_32 in
  Py.round2 temp.

(** The arithmetic of [set_target_temp]:
    [int(temp / 0.01).to_bytes(2, "little")]. *)
Definition target_of_temp (temp : float) : reply (list byte) :=
  match Py.int_of_float (temp / f_0_01) with
  | Ok n => Py.to_bytes_2_little n
  | Err e => Err e
  end.

Close Scope float_scope.

(** The [colour] property: [r, g, b = self.led_colour_rgb] and the f-string
    ["#{r:02x}{g:02x}{b:02x}"]. *)
Definition colour (m : EmberMug) : reply string :=
  match led_colour_rgb m with
  | [r; g; b] =>
      Ok (String "#"%char
            (Py.format_02x r ++ Py.format_02x g ++ Py.format_02x b)%string)
  | _ => Err ValueError
  end.

(** [new_state in [1, self.state]] *)
Definition in_1_or_state (new_state : Z) (st : option Z) : bool :=
  (new_state =? 1) ||
  match st with Some s => new_state =? s | None => false end.

(** The entries of [update_attrs]. *)
Inductive attr : Type := led_colour | current_temp_ | target_temp_ | battery_.

Definition update_attrs : list attr :=
  [led_colour; current_temp_; target_temp_; battery_].

Definition byte_int (b : byte) : Z := Z.of_N (Byte.to_N b).

(** [range(a, b)] *)
Definition range (a b : Z) : list Z :=
  map (fun k => a + Z.of_nat k) (seq 0 (Z.to_nat (b - a))).

Section Session.

Variable env : Env.

Definition client_is_connected : M bool :=
  outside (Awaited BleakClient.is_connected) (env_is_connected env).

Definition client_connect : M unit :=
  outside (Awaited BleakClient.connect) (env_connect env).

Definition client_pair : M unit :=
  outside (Awaited BleakClient.pair) (env_pair env).

Definition client_read_gatt_char (uuid : Uuid) : M (list byte) :=
  outside (Awaited (BleakClient.read_gatt_char uuid))
          (env_read_gatt_char env uuid).

Definition client_write_gatt_char (uuid : Uuid) (data : list byte)
           (response : bool) : M unit :=
  outside (Awaited (BleakClient.write_gatt_char uuid data response))
          (env_write_gatt_char env uuid data response).

Definition client_start_notify (uuid : Uuid) : M unit :=
  outside (Awaited (BleakClient.start_notify uuid)) (env_start_notify env uuid).

Definition client_stop_notify (uuid : Uuid) : M unit :=
  outside (Awaited (BleakClient.stop_notify uuid)) (env_stop_notify env uuid).

Definition client_disconnect : M unit :=
  outside (Awaited BleakClient.disconnect) (env_disconnect env).

Definition async_update_callback : M unit :=
  outside Callback (env_update_callback env).

(** [_temp_from_bytes] *)
Definition _temp_from_bytes (temp_bytes : list byte) : M float :=
  self <- get_mug ;;
  raw <- lift (Py.float_of_int (Py.int_from_bytes_little temp_bytes)) ;;
  ret (temp_of_raw (use_metric self) raw).

(** [update_battery] *)
Definition update_battery : M unit :=
  current_battery <- client_read_gatt_char BATTERY_UUID ;;
  match current_battery with
  | [] => raise IndexError
  | b0 :: _ =>
      battery_percent <- lift (Py.float_of_int (byte_int b0)) ;;
      log DEBUG (Battery_is_at battery_percent) ;;
      modify_mug (set_battery (Some (Py.round2 battery_percent)))
  end.

(** [update_led_colour]: the unpacking [r, g, b, _ = ...] needs exactly
    four values. *)
Definition update_led_colour : M unit :=
  payload <- client_read_gatt_char LED_COLOUR_UUID ;;
  match payload with
  | [r; g; b; _] =>
      modify_mug (set_led_colour_rgb [byte_int r; byte_int g; byte_int b])
  | _ => raise ValueError
  end.

(** [update_target_temp] *)
Definition update_target_temp : M unit :=
  temp_bytes <- client_read_gatt_char TARGET_TEMP_UUID ;;
  t <- _temp_from_bytes temp_bytes ;;
  modify_mug (set_target_temp_attr (Some t)) ;;
  log DEBUG (Target_temp t).

(** [update_current_temp] *)
Definition update_current_temp : M unit :=
  temp_bytes <- client_read_gatt_char CURRENT_TEMP_UUID ;;
  t <- _temp_from_bytes temp_bytes ;;
  modify_mug (set_current_temp (Some t)) ;;
  log DEBUG (Current_temp t).

(** [getattr(self, f"update_{attr}")()] *)
Definition update_ (a : attr) : M unit :=
  match a with
  | led_colour => update_led_colour
  | current_temp_ => update_current_temp
  | target_temp_ => update_target_temp
  | battery_ => update_battery
  end.

(** One pass of the [for i in range(1, 10 + 1)] loop of [connect]. *)
Definition connect_attempt (connected : bool) (i : Z) : M bool :=
  try_except
    (client_connect ;;
     client_pair ;;
     log INFO Connected_to ;;
     ret true)
    (fun e =>
       if is_BleakError e
       then Some (log ERROR (Init_on_attempt e i) ;;
                  sleep_not_awaited 30 ;;
                  ret connected)
       else None).

Fixpoint connect_attempts (indices : list Z) (connected : bool) : M bool :=
  match indices with
  | [] => ret connected
  | i :: rest =>
      connected' <- connect_attempt connected i ;;
      connect_attempts rest connected'
  end.

(** The final [try] of [connect]: subscribe to the state notifications. *)
Definition subscribe : M unit :=
  try_except
    (log INFO Try_to_subscribe_to_STATE ;;
     client_start_notify STATE_UUID)
    (fun e =>
       if is_BleakError e
       then Some (log WARNING Failed_to_subscribe_to_state_attr)
       else Some (log ERROR (Unexpected_error_connecting_to_notify e))).

(** [connect]; one unit of fuel per nested call: [fuel] is how deep the
    recursion [await self.connect()] is followed. *)
Fixpoint connect (fuel : nat) : M unit :=
  match fuel with
  | O => out_of_fuel
  | S fuel' =>
      connected <- connect_attempts (range 1 (10 + 1)) false ;;
      (if negb connected
       then async_update_callback ;;
            log WARNING Failed_to_connect_after_10_tries ;;
            await_sleep (5 * 60) ;;
            connect fuel'
       else ret tt) ;;
      subscribe
  end.

(** [if not await self.client.is_connected(): await self.connect()], the
    opening of both [update_all] and the body of the session loop. *)
Definition connect_if_needed (fuel : nat) : M unit :=
  is_conn <- client_is_connected ;;
  if negb is_conn then connect fuel else ret tt.

(** [state_notify(sender, data)] *)
Definition state_notify (data : list byte) : M unit :=
  match data with
  | [] => raise IndexError
  | d0 :: _ =>
      let new_state := byte_int d0 in
      self <- get_mug ;;
      if negb (in_1_or_state new_state (state self))
      then log INFO (State_changed (state self) new_state) ;;
           modify_mug (set_state (Some new_state))
      else ret tt
  end.

(** [update_all] *)
Definition update_all (fuel : nat) : M bool :=
  try_except
    (connect_if_needed fuel ;;
     for_each update_attrs update_ ;;
     ret true)
    (fun e =>
       if is_BleakError e
       then Some (log ERROR (Str e) ;; ret false)
       else None).

(** The [for _ in range(15)] dwell of [async_run]. *)
Definition dwell : M unit :=
  for_each (range 0 15)
           (fun _ => client_is_connected ;; await_sleep 2).

(** One pass of the body of [while self._loop]. *)
Definition loop_body (fuel : nat) : M unit :=
  connect_if_needed fuel ;;
  update_all fuel ;;
  async_update_callback ;;
  dwell.

(** [while self._loop: ...]; one unit of [n] per pass, [fuel] for the
    calls of [connect] inside. *)
Fixpoint while_loop (fuel n : nat) : M unit :=
  match n with
  | O => out_of_fuel
  | S n' =>
      self <- get_mug ;;
      if _loop self
      then loop_body fuel ;; while_loop fuel n'
      else ret tt
  end.

(** What is inside the [try] of [async_run]. *)
Definition async_run_try (fuel : nat) : M unit :=
  modify_mug (set__loop true) ;;
  log INFO Starting_mug_loop ;;
  while_loop fuel fuel.

(** [async_run] *)
Definition async_run (fuel : nat) : M unit :=
  try_except
    (async_run_try fuel)
    (fun e =>
       Some (log ERROR (Unexpected_error_during_loop e) ;;
             async_create_task_async_run)).

(** [disconnect]; [contextlib.suppress(BleakError)] is a [try] whose
    handler does nothing. *)
Definition disconnect : M unit :=
  modify_mug (set__loop false) ;;
  try_except
    (client_stop_notify STATE_UUID)
    (fun e => if is_BleakError e then Some (ret tt) else None) ;;
  try_except
    (is_conn <- client_is_connected ;;
     if is_conn then client_disconnect else ret tt)
    (fun e => if is_BleakError e then Some (ret tt) else None).

(** [services.set_target_temp(self, temp)] *)
Definition set_target_temp (temp : float) : M unit :=
  log DEBUG (Set_to temp) ;;
  target <- lift (target_of_temp temp) ;;
  client_write_gatt_char TARGET_TEMP_UUID target false ;;
  log DEBUG Resp.

(** The host scheduler starts the oldest session-loop task it was given,
    if there is one. *)
Definition run_next_task (fuel : nat) : M unit :=
  fun w =>
    match tasks w with
    | O => (Returned tt, w)
    | S k =>
        async_run fuel
          {| mug := mug w; calls := calls w; trace := trace w; tasks := k |}
    end.

End Session.

(** [EmberMug.__init__]: the default attributes, and the first session-loop
    task handed to the scheduler. *)
Definition init (metric : bool) : World :=
  {| mug := {| _loop := false; use_metric := metric; state := None;
               charging := false; led_colour_rgb := [255; 255; 255];
               current_temp := None; target_temp := None; battery := None;
               available := false |};
     calls := 0;
     trace := [TaskCreated];
     tasks := 1 |}.

(* ------------------------------------------------------------------ *)
(** ** Some peripherals *)

(** A mug in range that answers every call: colour [ff 00 80 00], current
    temperature raw 100, target temperature raw 5500, battery 80. *)
Definition healthy : Env :=
  {| env_is_connected := fun _ => Ok true;
     env_connect := fun _ => Ok tt;
     env_pair := fun _ => Ok tt;
     env_read_gatt_char := fun uuid _ =>
       match uuid with
       | LED_COLOUR_UUID => Ok [xff; x00; x80; x00]
       | CURRENT_TEMP_UUID => Ok [x64; x00]
       | TARGET_TEMP_UUID => Ok [x7c; x15]
       | BATTERY_UUID => Ok [x50]
       | STATE_UUID => Ok [x05]
       end%byte;
     env_write_gatt_char := fun _ _ _ _ => Ok tt;
     env_start_notify := fun _ _ => Ok tt;
     env_stop_notify := fun _ _ => Ok tt;
     env_disconnect := fun _ => Ok tt;
     env_update_callback := fun _ => Ok tt |}.

(** A mug out of range: not connected, and every connection attempt fails
    with a transport error. *)
Definition out_of_range : Env :=
  {| env_is_connected := fun _ => Ok false;
     env_connect := fun _ => Err BleakError;
     env_pair := fun _ => Err BleakError;
     env_read_gatt_char := fun _ _ => Err BleakError;
     env_write_gatt_char := fun _ _ _ _ => Err BleakError;
     env_start_notify := fun _ _ => Err BleakError;
     env_stop_notify := fun _ _ => Err BleakError;
     env_disconnect := fun _ => Err BleakError;
     env_update_callback := fun _ => Ok tt |}.

(** [base] with another answer to the reads of one characteristic. *)
Definition with_read (base : Env) (which : Uuid -> bool)
           (answer : reply (list byte)) : Env :=
  {| env_is_connected := env_is_connected base;
     env_connect := env_connect base;
     env_pair := env_pair base;
     env_read_gatt_char := fun uuid n =>
       if which uuid then answer else env_read_gatt_char base uuid n;
     env_write_gatt_char := env_write_gatt_char base;
     env_start_notify := env_start_notify base;
     env_stop_notify := env_stop_notify base;
     env_disconnect := env_disconnect base;
     env_update_callback := env_update_callback base |}.

Definition is_TARGET_TEMP_UUID (u : Uuid) : bool :=
  match u with TARGET_TEMP_UUID => true | _ => false end.

Definition is_LED_COLOUR_UUID (u : Uuid) : bool :=
  match u with LED_COLOUR_UUID => true | _ => false end.

(** The healthy mug, except that reading the target temperature fails. *)
Definition target_read_fails : Env :=
  with_read healthy is_TARGET_TEMP_UUID (Err BleakError).

(** The healthy mug, except that the colour characteristic holds three
    bytes. *)
Definition three_byte_colour : Env :=
  with_read healthy is_LED_COLOUR_UUID (Ok [xff; x00; x80]%byte).

(* ------------------------------------------------------------------ *)
(** ** Vocabulary of the statements *)

(** The characteristic each [update_] method reads. *)
Definition uuid_of (a : attr) : Uuid :=
  match a with
  | led_colour => LED_COLOUR_UUID
  | current_temp_ => CURRENT_TEMP_UUID
  | target_temp_ => TARGET_TEMP_UUID
  | battery_ => BATTERY_UUID
  end.

Definition is_connect_call (e : event) : bool :=
  match e with Awaited BleakClient.connect => true | _ => false end.


Definition is_Callback (e : event) : bool :=
  match e with Callback => true | _ => false end.

(** A real suspension of [seconds] seconds. *)
Definition is_Slept (seconds : Z) (e : event) : bool :=
  match e with Slept s => s =? seconds | _ => false end.

Definition count (p : event -> bool) (l : list event) : nat :=
  List.length (filter p l).

(** The characteristics read, in order. *)
Fixpoint reads_of (l : list event) : list Uuid :=
  match l with
  | [] => []
  | Awaited (BleakClient.read_gatt_char u) :: rest => u :: reads_of rest
  | _ :: rest => reads_of rest
  end.

(** The world with its object replaced. *)
Definition with_mug (m : EmberMug) (w : World) : World :=
  {| mug := m; calls := calls w; trace := trace w; tasks := tasks w |}.

(** What [_temp_from_bytes] returns on an object configured for Celsius. *)
Definition decode_celsius (temp_bytes : list byte) : outcome float :=
  fst (_temp_from_bytes temp_bytes (init true)).

(** What one failed attempt of [connect] leaves in the trace when
    [client.connect()] itself raises [BleakError]. *)
Definition failed_attempt (i : Z) : list event :=
  [Awaited BleakClient.connect;
   Logged ERROR (Init_on_attempt BleakError i);
   SleepNotAwaited 30].

(** One whole failed burst of [connect]: ten failed attempts, the callback,
    the warning and the five-minute sleep. *)
Definition failed_burst : list event :=
  flat_map failed_attempt (range 1 (10 + 1)) ++
  [Callback; Logged WARNING Failed_to_connect_after_10_tries; Slept (5 * 60)].


(** An answer that is a return or a transport error. *)
Definition transport_only {A} (r : reply A) : Prop :=
  match r with
  | Ok _ => True
  | Err e => is_BleakError e = true
  end.

(** [w'] comes after [w]: the trace only grew, and the attributes no method
    assigns are the same. *)
Definition advances (w w' : World) : Prop :=
  available (mug w') = available (mug w) /\
  use_metric (mug w') = use_metric (mug w) /\
  charging (mug w') = charging (mug w) /\
  (calls w <= calls w')%nat /\
  exists l, trace w' = trace w ++ l.

(** A method every run of which leaves a world that comes after the one it
    started in. *)
Definition steady {A} (c : M A) : Prop :=
  forall w, advances w (snd (c w)).

(** An attribute update that leaves alone the attributes no method
    assigns. *)
Definition keeps_fixed (f : EmberMug -> EmberMug) : Prop :=
  forall m,
    available (f m) = available m /\
    use_metric (f m) = use_metric m /\
    charging (f m) = charging m.

(** The world in which [async_run] enters its [while]: [_loop] set and the
    start logged. *)
Definition started (w : World) : World :=
  {| mug := set__loop true (mug w);
     calls := calls w;
     trace := trace w ++ [Logged INFO Starting_mug_loop];
     tasks := tasks w |}.

(** The world after an outside call that raised, or whose answer is not
    looked at here. *)
Definition called (e : event) (w : World) : World :=
  {| mug := mug w; calls := S (calls w); trace := trace w ++ [e];
     tasks := tasks w |}.

(** The world one failed burst of [connect] after [w]. *)
Definition after_burst (w : World) : World :=
  {| mug := mug w;
     calls := 11 + calls w;
     trace := trace w ++ failed_burst;
     tasks := tasks w |}.

(** A method every run of which takes a world to one related to it by
    [R]. *)
Definition respects (R : World -> World -> Prop) {A} (c : M A) : Prop :=
  forall w, R w (snd (c w)).

(** Neither the loop flag nor the scheduler's queue was touched. *)
Definition same_loop_and_tasks (w w' : World) : Prop :=
  _loop (mug w') = _loop (mug w) /\ tasks w' = tasks w.

(** The stored status was not touched. *)
Definition same_state (w w' : World) : Prop :=
  state (mug w') = state (mug w).

(** A colour attribute that [colour] can format: three byte values. *)
Definition is_rgb (l : list Z) : Prop :=
  exists r g b : byte, l = [byte_int r; byte_int g; byte_int b].

(** What stays true of the object once true: the stored status is not 1,
    the colour is three byte values, [charging] is off. *)
Definition sound_mug (m : EmberMug) : Prop :=
  state m <> Some 1 /\ is_rgb (led_colour_rgb m) /\ charging m = false.

Definition stays_sound (w w' : World) : Prop :=
  sound_mug (mug w) -> sound_mug (mug w').

(** The 15 slices of the dwell. *)
Definition dwell_slices : list event :=
  flat_map (fun _ => [Awaited BleakClient.is_connected; Slept 2]) (range 0 15).

Definition is_start_notify (e : event) : bool :=
  match e with Awaited (BleakClient.start_notify _) => true | _ => false end.

Definition is_client_call (e : event) : bool :=
  match e with Awaited _ => true | _ => false end.

(** The seconds spent in awaited sleeps. *)
Fixpoint slept_total (l : list event) : Z :=
  match l with
  | [] => 0
  | Slept s :: rest => s + slept_total rest
  | _ :: rest => slept_total rest
  end.

(** A byte value as a float, exactly. *)
Definition float_of_byte (b : byte) : float :=
  PrimFloat.of_uint63 (Uint63.of_Z (byte_int b)).

(** What the object looks like after a successful [update_] of [a] that
    stored [v]: only the attribute of [a] may differ. *)
Definition same_but (a : attr) (m m' : EmberMug) : Prop :=
  _loop m' = _loop m /\ use_metric m' = use_metric m /\
  state m' = state m /\ charging m' = charging m /\
  available m' = available m /\
  (a <> led_colour -> led_colour_rgb m' = led_colour_rgb m) /\
  (a <> current_temp_ -> current_temp m' = current_temp m) /\
  (a <> target_temp_ -> target_temp m' = target_temp m) /\
  (a <> battery_ -> battery m' = battery m).

(** The attribute of [a] holds a reading. *)
Definition is_read (a : attr) (m : EmberMug) : Prop :=
  match a with
  | led_colour => is_rgb (led_colour_rgb m)
  | current_temp_ => current_temp m <> None
  | target_temp_ => target_temp m <> None
  | battery_ => battery m <> None
  end.

(** The healthy mug behind a BLE stack whose [connect] raises something
    that is not a [BleakError]. *)
Definition broken_stack : Env :=
  {| env_is_connected := fun _ => Ok false;
     env_connect := fun _ => Err OtherException;
     env_pair := env_pair healthy;
     env_read_gatt_char := env_read_gatt_char healthy;
     env_write_gatt_char := env_write_gatt_char healthy;
     env_start_notify := env_start_notify healthy;
     env_stop_notify := env_stop_notify healthy;
     env_disconnect := env_disconnect healthy;
     env_update_callback := env_update_callback healthy |}.

(** The trace grew by some events, among which [start_notify] was called
    [n] times and five minutes were slept [k] times. *)
Definition grew (w w' : World) (n k : nat) : Prop :=
  exists l,
    trace w' = trace w ++ l /\
    count is_start_notify l = n /\
    count (is_Slept 300) l = k.

(** The world after a failed burst that ended in [w]: the callback was
    invoked, the warning logged and five minutes slept. *)
Definition backed_off (w : World) : World :=
  {| mug := mug w;
     calls := S (calls w);
     trace := trace w ++
              [Callback; Logged WARNING Failed_to_connect_after_10_tries;
               Slept (5 * 60)];
     tasks := tasks w |}.

(** The healthy mug, coming into range only after [t] outside calls: until
    then it is not connected and [client.connect()] raises [BleakError]. *)
Definition in_range_after (t : nat) : Env :=
  {| env_is_connected := fun n => Ok (Nat.leb t n);
     env_connect := fun n => if Nat.ltb n t then Err BleakError else Ok tt;
     env_pair := env_pair healthy;
     env_read_gatt_char := env_read_gatt_char healthy;
     env_write_gatt_char := env_write_gatt_char healthy;
     env_start_notify := env_start_notify healthy;
     env_stop_notify := env_stop_notify healthy;
     env_disconnect := env_disconnect healthy;
     env_update_callback := env_update_callback healthy |}.

(** The worlds a session can be in: after construction, and after any
    method ran (to its end, to an exception, or as far as the fuel went). *)
Inductive reachable (env : Env) : World -> Prop :=
| reach_init : forall metric, reachable env (init metric)
| reach_task : forall fuel w,
    reachable env w -> reachable env (snd (run_next_task env fuel w))
| reach_connect : forall fuel w,
    reachable env w -> reachable env (snd (connect env fuel w))
| reach_update_all : forall fuel w,
    reachable env w -> reachable env (snd (update_all env fuel w))
| reach_state_notify : forall data w,
    reachable env w -> reachable env (snd (state_notify data w))
| reach_disconnect : forall w,
    reachable env w -> reachable env (snd (disconnect env w))
| reach_set_target_temp : forall temp w,
    reachable env w -> reachable env (snd (set_target_temp env temp w)).

(* ------------------------------------------------------------------ *)
(** ** The discovery utility ([services.find_mugs]) *)

(** [find_mugs] does not use the [EmberMug] object: it scans with
    [bleak.discover()], and probes each device whose name is that of the mug
    through [async with BleakClient(device) as client], which connects on
    entry and disconnects on exit, also when the block raises.  What it does
    is what it prints and what it asks of the radio. *)
Module Discovery.

Record device : Type := {
  address : string;
  name : option string;
  details : string
}.

(** What the utility does that is visible from outside, in order. *)
Inductive step : Type :=
| Print (text : string) (end_ : string)
| PrintError (e : exn)              (* [print(f"Error: {e}")] *)
| Discover                          (* [await discover()] *)
| Enter (d : device)                (* entering the [async with] block *)
| IsConnected                       (* [await client.is_connected()] *)
| Pair                              (* [await client.pair()] *)
| Exit.                             (* leaving the [async with] block *)

(** The radio: the answer to each request, given the number of requests
    made before it. *)
Record Radio : Type := {
  discover : nat -> reply (list device);
  aenter : device -> nat -> reply unit;
  is_connected : nat -> reply bool;
  pair : nat -> reply bool;
  aexit : nat -> reply unit
}.

Record Console : Type := {
  asked : nat;
  seen : list step
}.

Definition D (A : Type) : Type := Console -> outcome A * Console.

Definition ret {A} (a : A) : D A := fun s => (Returned a, s).

Definition bind {A B} (c : D A) (k : A -> D B) : D B :=
  fun s =>
    match c s with
    | (Returned a, s') => k a s'
    | (Raised e, s') => (Raised e, s')
    | (OutOfFuel, s') => (OutOfFuel, s')
    end.

Definition out_of_fuel {A} : D A := fun s => (OutOfFuel, s).

Definition say (x : step) : D unit :=
  fun s => (Returned tt, {| asked := asked s; seen := seen s ++ [x] |}).

Definition ask {A} (x : step) (answer : nat -> reply A) : D A :=
  fun s =>
    let s' := {| asked := S (asked s); seen := seen s ++ [x] |} in
    match answer (asked s) with
    | Ok a => (Returned a, s')
    | Err e => (Raised e, s')
    end.

Definition newline : string := String (ascii_of_nat 10) EmptyString.

(** [print(text)] and [print(text, end="")] *)
Definition print (text : string) : D unit := say (Print text newline).
Definition print_no_newline (text : string) : D unit :=
  say (Print text EmptyString).

(** [str(b)] for a [bool] *)
Definition str_bool (b : bool) : string :=
  if b then "True"%string else "False"%string.

Definition mug_name : string := "Ember Ceramic Mug".

(** [device.name == "Ember Ceramic Mug"] *)
Definition is_mug (d : device) : bool :=
  match name d with
  | Some n => String.eqb n mug_name
  | None => false
  end.

(** [print(device.name)] *)
Definition str_name (d : device) : string :=
  match name d with
  | Some n => n
  | None => "None"%string
  end.

Section Scan.

Variable radio : Radio.

(** [async with BleakClient(device) as client: body]: when entering
    raises, the block is not run and nothing is exited; otherwise the client
    is exited after the block, and an exception of the block is raised again
    after the exit unless the exit itself raises. *)
Definition async_with (d : device) (body : D unit) : D unit :=
  fun s =>
    match ask (Enter d) (aenter radio d) s with
    | (Returned _, s1) =>
        match body s1 with
        | (Returned _, s2) => ask Exit (aexit radio) s2
        | (Raised e, s2) =>
            match ask Exit (aexit radio) s2 with
            | (Returned _, s3) => (Raised e, s3)
            | r => r
            end
        | (OutOfFuel, s2) => (OutOfFuel, s2)
        end
    | r => r
    end.

(** The body of [for device in devices]. *)
Definition probe (d : device) : D unit :=
  if is_mug d
  then
    bind (print (address d)) (fun _ =>
    bind (print (str_name d)) (fun _ =>
    bind (print (details d)) (fun _ =>
    async_with d
      (bind (ask IsConnected (is_connected radio)) (fun x =>
       bind (print ("Connected: " ++ str_bool x)) (fun _ =>
       bind (ask Pair (pair radio)) (fun y =>
       print ("Paired: " ++ str_bool y))))))))
  else ret tt.

Fixpoint probe_all (devices : list device) : D unit :=
  match devices with
  | [] => ret tt
  | d :: rest => bind (probe d) (fun _ => probe_all rest)
  end.

(** [while True: ...]; one unit of fuel per pass. *)
Fixpoint scan_loop (fuel : nat) : D unit :=
  match fuel with
  | O => out_of_fuel
  | S fuel' =>
      bind (print_no_newline ".") (fun _ =>
      bind (ask Discover (discover radio)) (fun devices =>
      bind (probe_all devices) (fun _ =>
      scan_loop fuel')))
  end.

(** [find_mugs] *)
Definition find_mugs (fuel : nat) : D unit :=
  fun s =>
    match bind (print_no_newline "Searching..") (fun _ => scan_loop fuel) s with
    | (Raised e, s') => say (PrintError e) s'
    | r => r
    end.

End Scan.

Definition start : Console := {| asked := 0; seen := [] |}.

Definition is_Enter (x : step) : bool :=
  match x with Enter _ => true | _ => false end.

Definition is_Exit (x : step) : bool :=
  match x with Exit => true | _ => false end.

Definition is_request (x : step) : bool :=
  match x with
  | Discover | Enter _ | IsConnected | Pair | Exit => true
  | _ => false
  end.

Definition tally (p : step -> bool) (l : list step) : nat :=
  List.length (filter p l).

(** A radio that always sees the same devices and never fails. *)
Definition steady_radio (devices : list device) : Radio :=
  {| discover := fun _ => Ok devices;
     aenter := fun _ _ => Ok tt;
     is_connected := fun _ => Ok true;
     pair := fun _ => Ok true;
     aexit := fun _ => Ok tt |}.

(** A radio that sees [devices] and cannot pair. *)
Definition unpairable_radio (devices : list device) : Radio :=
  {| discover := fun _ => Ok devices;
     aenter := fun _ _ => Ok tt;
     is_connected := fun _ => Ok true;
     pair := fun _ => Err BleakError;
     aexit := fun _ => Ok tt |}.

Definition a_mug : device :=
  {| address := "C9:0F:59:D6:33:F9"; name := Some mug_name;
     details := "details" |}.

Definition a_speaker : device :=
  {| address := "00:11:22:33:44:55"; name := Some "Speaker"%string;
     details := "details" |}.

End Discovery.

(* ------------------------------------------------------------------ *)
(** ** Byte codec *)

Lemma byte_int_range (b : byte) : 0 <= byte_int b < 256.
Proof.
  unfold byte_int. pose proof (Byte.to_N_bounded b) as H. lia.
Qed.

(** C3: the notification handler stores the first byte of the payload as
    the new status exactly when that byte is neither 1 nor the stored status,
    and otherwise changes nothing; with status 3 stored, bytes 1 and 3 leave
    it at 3 and byte 5 makes it 5. *)
Theorem state_notify_applies_iff :
  forall (w : World) (d : byte) (rest : list byte),
    let new_state := byte_int d in
    let r := state_notify (d :: rest) w in
    fst r = Returned tt /\
    (new_state <> 1 /\ state (mug w) <> Some new_state ->
       state (mug (snd r)) = Some new_state /\
       trace (snd r) =
         trace w ++ [Logged INFO (State_changed (state (mug w)) new_state)]) /\
    (new_state = 1 \/ state (mug w) = Some new_state -> snd r = w) /\
    (let w3 := with_mug (set_state (Some 3) (mug w)) w in
     state (mug (snd (state_notify [x01%byte] w3))) = Some 3 /\
     state (mug (snd (state_notify [x03%byte] w3))) = Some 3 /\
     state (mug (snd (state_notify [x05%byte] w3))) = Some 5).
Proof.
  intros w d rest new_state r. subst r.
  split; [| split; [| split]].
  - unfold state_notify, bind, get_mug. fold new_state. cbn beta iota.
    destruct (negb _); reflexivity.
  - intros [Hn Hs].
    unfold state_notify, bind, get_mug. fold new_state. cbn beta iota.
    unfold in_1_or_state.
    apply Z.eqb_neq in Hn. rewrite Hn. cbn [orb].
    destruct (state (mug w)) as [s|].
    + assert ((new_state =? s) = false) as ->
        by (apply Z.eqb_neq; congruence).
      cbn. split; reflexivity.
    + cbn. split; reflexivity.
  - intros H.
    unfold state_notify, bind, get_mug. fold new_state. cbn beta iota.
    unfold in_1_or_state.
    destruct H as [H | H].
    + rewrite H. reflexivity.
    + rewrite H, Z.eqb_refl, orb_true_r. reflexivity.
  - cbn. repeat split.
Qed.

Lemma format_02x_byte (b : byte) :
  Py.format_02x (byte_int b) =
  String (Py.hex_digit (byte_int b / 16))
         (String (Py.hex_digit (byte_int b mod 16)) EmptyString).
Proof.
  destruct b; reflexivity.
Qed.

Lemma update_led_colour_unpack (env : Env) (w : World) (payload : list byte) :
  env_read_gatt_char env LED_COLOUR_UUID (calls w) = Ok payload ->
  update_led_colour env w =
  match payload with
  | [r; g; b; _] =>
      (Returned tt,
       {| mug := set_led_colour_rgb [byte_int r; byte_int g; byte_int b] (mug w);
          calls := S (calls w);
          trace := trace w ++ [Awaited (BleakClient.read_gatt_char LED_COLOUR_UUID)];
          tasks := tasks w |})
  | _ =>
      (Raised ValueError,
       {| mug := mug w;
          calls := S (calls w);
          trace := trace w ++ [Awaited (BleakClient.read_gatt_char LED_COLOUR_UUID)];
          tasks := tasks w |})
  end.
Proof.
  intros H.
  unfold update_led_colour, bind, client_read_gatt_char, outside.
  rewrite H.
  destruct payload as [|r [|g [|b [|a [|x rest]]]]]; reflexivity.
Qed.

(** C9, as the code has it: the colour payload must hold exactly four
    bytes; then the first three become (r, g, b) and the fourth is dropped.
    A payload of any other length, three bytes included, raises [ValueError]
    and leaves the object as it was.  The [colour] property formats a triple
    of byte values as [#] followed by two lowercase hexadecimal digits for
    each; [ff 00 80 00] decodes to (255, 0, 128), which formats as
    [#ff0080]. *)
Theorem update_led_colour_four_bytes :
  forall (env : Env) (w : World) (payload : list byte),
    env_read_gatt_char env LED_COLOUR_UUID (calls w) = Ok payload ->
    (forall r g b a, payload = [r; g; b; a] ->
       fst (update_led_colour env w) = Returned tt /\
       led_colour_rgb (mug (snd (update_led_colour env w))) =
         [byte_int r; byte_int g; byte_int b]) /\
    (List.length payload <> 4%nat ->
       fst (update_led_colour env w) = Raised ValueError /\
       mug (snd (update_led_colour env w)) = mug w) /\
    (forall (m : EmberMug) (r g b : byte),
       colour (set_led_colour_rgb [byte_int r; byte_int g; byte_int b] m) =
       Ok (String "#"%char
             (String (Py.hex_digit (byte_int r / 16))
             (String (Py.hex_digit (byte_int r mod 16))
             (String (Py.hex_digit (byte_int g / 16))
             (String (Py.hex_digit (byte_int g mod 16))
             (String (Py.hex_digit (byte_int b / 16))
             (String (Py.hex_digit (byte_int b mod 16)) EmptyString)))))))) /\
    (forall m : EmberMug,
       colour (set_led_colour_rgb [255; 0; 128] m) = Ok "#ff0080"%string).
Proof.
  intros env w payload H.
  rewrite (update_led_colour_unpack env w payload H).
  split; [| split; [| split]].
  - intros r g b a ->. split; reflexivity.
  - intros Hlen.
    destruct payload as [|r [|g [|b [|a [|x rest]]]]];
      try (split; reflexivity).
    exfalso. apply Hlen. reflexivity.
  - intros m r g b. unfold colour. cbn [led_colour_rgb set_led_colour_rgb].
    rewrite !format_02x_byte. reflexivity.
  - intros m. reflexivity.
Qed.

Lemma update_led_colour_four_bytes_witness :
  fst (update_led_colour healthy (init true)) = Returned tt /\
  led_colour_rgb (mug (snd (update_led_colour healthy (init true)))) =
    [255; 0; 128].
Proof.
  exact (proj1 (update_led_colour_four_bytes healthy (init true)
                  [xff; x00; x80; x00]%byte eq_refl)
               xff x00 x80 x00 eq_refl)%byte.
Defined.

(** C9 as the spec words it fails: a payload of exactly three bytes is not
    decoded, it raises [ValueError] and the colour stays what it was. *)
Lemma three_byte_colour_is_rejected :
  env_read_gatt_char three_byte_colour LED_COLOUR_UUID 0 =
    Ok [xff; x00; x80]%byte /\
  fst (update_led_colour three_byte_colour (init true)) = Raised ValueError /\
  led_colour_rgb (mug (snd (update_led_colour three_byte_colour (init true)))) =
    [255; 255; 255].
Proof.
  repeat split.
Qed.

(** C7, at the input where the code departs from it: the payload [3a 00]
    (raw 58) decodes to 0.58; [set_target_temp] encodes 0.58 as raw 57,
    because [int] truncates 0.58 / 0.01 = 57.99999999999999; raw 57 decodes
    to 0.57, and the two decoded values differ by more than 0.01.  The same
    loss of one hundredth happens at raw 29 (0.29 comes back as 0.28). *)
Theorem round_trip_loses_a_hundredth :
  decode_celsius [x3a; x00]%byte = Returned 0x1.28f5c28f5c28fp-1%float /\
  target_of_temp 0x1.28f5c28f5c28fp-1 = Ok [x39; x00]%byte /\
  decode_celsius [x39; x00]%byte = Returned 0x1.23d70a3d70a3dp-1%float /\
  PrimFloat.ltb f_0_01
    (PrimFloat.abs
       (PrimFloat.sub 0x1.23d70a3d70a3dp-1 0x1.28f5c28f5c28fp-1)) = true /\
  decode_celsius [x1d; x00]%byte = Returned 0x1.28f5c28f5c28fp-2%float /\
  target_of_temp 0x1.28f5c28f5c28fp-2 = Ok [x1c; x00]%byte /\
  decode_celsius [x1c; x00]%byte = Returned 0x1.1eb851eb851ecp-2%float /\
  trace (snd (set_target_temp healthy 0x1.28f5c28f5c28fp-1 (init true))) =
    [TaskCreated;
     Logged DEBUG (Set_to 0x1.28f5c28f5c28fp-1);
     Awaited (BleakClient.write_gatt_char TARGET_TEMP_UUID
                [x39; x00]%byte false);
     Logged DEBUG Resp].
Proof.
  repeat split; vm_compute; reflexivity.
Qed.

(** C8, at the inputs where the code departs from it: for 0.29 the code
    sends raw 28, the truncation of 28.999999999999996, where rounding gives
    29; for 655.359 it sends raw 65535 without an error, where the rounded
    value 65536 does not fit in two bytes. *)
Theorem target_of_temp_truncates :
  target_of_temp 0x1.28f5c28f5c28fp-2 = Ok [x1c; x00]%byte /\
  Py.round_int (PrimFloat.div 0x1.28f5c28f5c28fp-2 f_0_01) = Ok 29 /\
  Py.to_bytes_2_little 29 = Ok [x1d; x00]%byte /\
  target_of_temp 0x1.47adf3b645a1dp+9 = Ok [xff; xff]%byte /\
  Py.round_int (PrimFloat.div 0x1.47adf3b645a1dp+9 f_0_01) = Ok 65536 /\
  Py.to_bytes_2_little 65536 = Err OverflowError.
Proof.
  repeat split; vm_compute; reflexivity.
Qed.

(* ------------------------------------------------------------------ *)
(** ** Every method only adds to the trace and never assigns [available] *)

Lemma advances_refl (w : World) : advances w w.
Proof.
  unfold advances. repeat split; try lia.
  exists []. symmetry. apply app_nil_r.
Qed.

Lemma advances_trans (w1 w2 w3 : World) :
  advances w1 w2 -> advances w2 w3 -> advances w1 w3.
Proof.
  intros (Ha & Hm & Hc & Hn & l & Hl) (Ha' & Hm' & Hc' & Hn' & l' & Hl').
  unfold advances. repeat split; try congruence; try lia.
  exists (l ++ l'). rewrite Hl', Hl. symmetry. apply app_assoc.
Qed.

Lemma steady_ret {A} (a : A) : steady (ret a).
Proof. intros w. apply advances_refl. Qed.

Lemma steady_raise {A} (e : exn) : steady (@raise A e).
Proof. intros w. apply advances_refl. Qed.

Lemma steady_out_of_fuel {A} : steady (@out_of_fuel A).
Proof. intros w. apply advances_refl. Qed.

Lemma steady_lift {A} (r : reply A) : steady (lift r).
Proof. destruct r; [apply steady_ret | apply steady_raise]. Qed.

Lemma steady_get_mug : steady get_mug.
Proof. intros w. apply advances_refl. Qed.

Lemma steady_bind {A B} (c : M A) (k : A -> M B) :
  steady c -> (forall a, steady (k a)) -> steady (bind c k).
Proof.
  intros Hc Hk w. unfold bind. specialize (Hc w).
  destruct (c w) as [[a | e |] w']; cbn in *; try assumption.
  eapply advances_trans; [eassumption | apply Hk].
Qed.

Lemma steady_try_except {A} (body : M A) (handler : exn -> option (M A)) :
  steady body ->
  (forall e h, handler e = Some h -> steady h) ->
  steady (try_except body handler).
Proof.
  intros Hb Hh w. unfold try_except. specialize (Hb w).
  destruct (body w) as [[a | e |] w']; cbn in *; try assumption.
  destruct (handler e) as [h |] eqn:E; cbn; try assumption.
  eapply advances_trans; [eassumption | apply (Hh e h E)].
Qed.

Lemma steady_emit (e : event) : steady (emit e).
Proof.
  intros w. unfold advances. cbn. repeat split; try lia. now exists [e].
Qed.

Lemma steady_outside {A} (e : event) (answer : nat -> reply A) :
  steady (outside e answer).
Proof.
  intros w. unfold outside, advances.
  destruct (answer (calls w)); cbn; repeat split; try lia; now exists [e].
Qed.

Lemma steady_modify_mug (f : EmberMug -> EmberMug) :
  keeps_fixed f -> steady (modify_mug f).
Proof.
  intros Hf w. destruct (Hf (mug w)) as (Ha & Hm & Hc).
  unfold advances. cbn. repeat split; try assumption; try lia.
  exists []. symmetry. apply app_nil_r.
Qed.

Lemma steady_async_create_task_async_run : steady async_create_task_async_run.
Proof.
  intros w. unfold advances. cbn. repeat split; try lia.
  now exists [TaskCreated].
Qed.

Lemma steady_for_each {A} (xs : list A) (body : A -> M unit) :
  (forall x, steady (body x)) -> steady (for_each xs body).
Proof.
  intros Hb. induction xs as [| x rest IH]; cbn.
  - apply steady_ret.
  - apply steady_bind; [apply Hb | intros _; exact IH].
Qed.

Lemma keeps_fixed_set__loop v : keeps_fixed (set__loop v).
Proof. intros m. repeat split. Qed.

Lemma keeps_fixed_set_state v : keeps_fixed (set_state v).
Proof. intros m. repeat split. Qed.

Lemma keeps_fixed_set_led_colour_rgb v : keeps_fixed (set_led_colour_rgb v).
Proof. intros m. repeat split. Qed.

Lemma keeps_fixed_set_current_temp v : keeps_fixed (set_current_temp v).
Proof. intros m. repeat split. Qed.

Lemma keeps_fixed_set_target_temp_attr v : keeps_fixed (set_target_temp_attr v).
Proof. intros m. repeat split. Qed.

Lemma keeps_fixed_set_battery v : keeps_fixed (set_battery v).
Proof. intros m. repeat split. Qed.

Create HintDb steady.
#[local] Hint Resolve steady_ret steady_raise steady_out_of_fuel steady_lift
  steady_get_mug steady_emit steady_outside steady_modify_mug
  steady_async_create_task_async_run
  keeps_fixed_set__loop keeps_fixed_set_state keeps_fixed_set_led_colour_rgb
  keeps_fixed_set_current_temp keeps_fixed_set_target_temp_attr
  keeps_fixed_set_battery : steady.

(** Walks through a method: sequencing, handlers, loops and branches. *)
Ltac steady_step :=
  first
    [ solve [auto with steady]
    | apply steady_bind; [| intros ?]
    | apply steady_try_except;
      [| let e := fresh "e" in
         let h := fresh "h" in
         let E := fresh "E" in
         intros e h E; try destruct (is_BleakError e);
         inversion E; subst; clear E ]
    | apply steady_for_each; intros ?
    | match goal with
      | |- steady (if ?b then _ else _) => destruct b
      | |- steady (match ?x with _ => _ end) => destruct x
      end ].

Ltac steady_method := repeat steady_step.

Section SteadyMethods.

Variable env : Env.

Lemma steady__temp_from_bytes bs : steady (_temp_from_bytes bs).
Proof. unfold _temp_from_bytes. steady_method. Qed.

Lemma steady_update_ a : steady (update_ env a).
Proof.
  pose proof steady__temp_from_bytes.
  destruct a; cbn;
    unfold update_led_colour, update_current_temp, update_target_temp,
      update_battery, client_read_gatt_char, log;
    steady_method.
Qed.

Lemma steady_connect_attempts indices connected :
  steady (connect_attempts env indices connected).
Proof.
  revert connected.
  induction indices as [| i rest IH]; intros connected; cbn.
  - apply steady_ret.
  - apply steady_bind; [| intros b; apply IH].
    unfold connect_attempt, client_connect, client_pair, log,
      sleep_not_awaited.
    steady_method.
Qed.

Lemma steady_subscribe : steady (subscribe env).
Proof.
  unfold subscribe, client_start_notify, log. steady_method.
Qed.

Lemma connect_S fuel :
  connect env (S fuel) =
  (connected <- connect_attempts env (range 1 (10 + 1)) false ;;
   (if negb connected
    then async_update_callback env ;;
         log WARNING Failed_to_connect_after_10_tries ;;
         await_sleep (5 * 60) ;;
         connect env fuel
    else ret tt) ;;
   subscribe env).
Proof. reflexivity. Qed.

Lemma while_loop_S fuel n :
  while_loop env fuel (S n) =
  (self <- get_mug ;;
   if _loop self
   then loop_body env fuel ;; while_loop env fuel n
   else ret tt).
Proof. reflexivity. Qed.

Lemma steady_connect fuel : steady (connect env fuel).
Proof.
  induction fuel as [| fuel IH].
  - apply steady_out_of_fuel.
  - rewrite connect_S.
    pose proof steady_connect_attempts. pose proof steady_subscribe.
    unfold async_update_callback, log, await_sleep.
    steady_method.
Qed.

Lemma steady_connect_if_needed fuel : steady (connect_if_needed env fuel).
Proof.
  pose proof steady_connect.
  unfold connect_if_needed, client_is_connected. steady_method.
Qed.

Lemma steady_state_notify data : steady (state_notify data).
Proof. unfold state_notify, log. steady_method. Qed.

Lemma steady_update_all fuel : steady (update_all env fuel).
Proof.
  pose proof steady_connect_if_needed. pose proof steady_update_.
  unfold update_all, log. steady_method.
Qed.

Lemma steady_dwell : steady (dwell env).
Proof.
  unfold dwell, client_is_connected, await_sleep. steady_method.
Qed.

Lemma steady_loop_body fuel : steady (loop_body env fuel).
Proof.
  pose proof steady_connect_if_needed. pose proof steady_update_all.
  pose proof steady_dwell.
  unfold loop_body, async_update_callback. steady_method.
Qed.

Lemma steady_while_loop fuel n : steady (while_loop env fuel n).
Proof.
  pose proof steady_loop_body.
  induction n as [| n IH].
  - apply steady_out_of_fuel.
  - rewrite while_loop_S. steady_method.
Qed.

Lemma steady_async_run fuel : steady (async_run env fuel).
Proof.
  pose proof steady_while_loop.
  unfold async_run, async_run_try, log. steady_method.
Qed.

Lemma steady_disconnect : steady (disconnect env).
Proof.
  unfold disconnect, client_stop_notify, client_is_connected,
    client_disconnect.
  steady_method.
Qed.

Lemma steady_set_target_temp temp : steady (set_target_temp env temp).
Proof.
  unfold set_target_temp, client_write_gatt_char, log. steady_method.
Qed.

Lemma steady_run_next_task fuel : steady (run_next_task env fuel).
Proof.
  intros w. unfold run_next_task.
  destruct (tasks w) as [| k] eqn:E.
  - apply advances_refl.
  - pose proof (steady_async_run fuel
                  {| mug := mug w; calls := calls w; trace := trace w;
                     tasks := k |}) as H.
    exact H.
Qed.

End SteadyMethods.

(* ------------------------------------------------------------------ *)
(** ** Availability *)

(** C6, as the code has it: [available] is false at construction and
    remains false in every world the session can reach; no method assigns
    it, a successful poll included. *)
Theorem available_stays_false :
  forall (env : Env) (w : World),
    reachable env w -> available (mug w) = false.
Proof.
  intros env w H.
  induction H as [metric | fuel w H IH | fuel w H IH | fuel w H IH
                 | data w H IH | w H IH | temp w H IH].
  - reflexivity.
  - rewrite (proj1 (steady_run_next_task env fuel w)). exact IH.
  - rewrite (proj1 (steady_connect env fuel w)). exact IH.
  - rewrite (proj1 (steady_update_all env fuel w)). exact IH.
  - rewrite (proj1 (steady_state_notify data w)). exact IH.
  - rewrite (proj1 (steady_disconnect env w)). exact IH.
  - rewrite (proj1 (steady_set_target_temp env temp w)). exact IH.
Qed.

Lemma available_stays_false_witness :
  available (mug (snd (update_all healthy 1 (snd (run_next_task healthy 1 (init true))))))
  = false.
Proof.
  apply (available_stays_false healthy).
  apply reach_update_all. apply reach_task. apply reach_init.
Defined.

(** C6 as the spec words it fails: a full poll cycle succeeds on a
    connected mug and [available] is still false. *)
Lemma successful_poll_leaves_unavailable :
  fst (update_all healthy 1 (init true)) = Returned true /\
  reads_of (trace (snd (update_all healthy 1 (init true)))) =
    [LED_COLOUR_UUID; CURRENT_TEMP_UUID; TARGET_TEMP_UUID; BATTERY_UUID] /\
  available (mug (snd (update_all healthy 1 (init true)))) = false.
Proof.
  repeat split; vm_compute; reflexivity.
Qed.

(* ------------------------------------------------------------------ *)
(** ** What follows the first step of a method *)

Lemma bind_after {A B} (c : M A) (k : A -> M B) (w : World) :
  (forall a, steady (k a)) ->
  advances (snd (c w)) (snd (bind c k w)).
Proof.
  intros Hk. unfold bind.
  destruct (c w) as [[a | e |] w']; cbn; try apply advances_refl.
  apply Hk.
Qed.

Lemma try_except_after {A} (body : M A) (handler : exn -> option (M A))
      (w : World) :
  (forall e h, handler e = Some h -> steady h) ->
  advances (snd (body w)) (snd (try_except body handler w)).
Proof.
  intros Hh. unfold try_except.
  destruct (body w) as [[a | e |] w']; cbn; try apply advances_refl.
  destruct (handler e) as [h |] eqn:E; cbn; try apply advances_refl.
  apply (Hh e h E).
Qed.

Lemma advances_trace (w w' : World) (t l0 l : list event) :
  trace w = t ++ l0 ++ l ->
  advances w w' ->
  exists l', trace w' = t ++ l0 ++ l'.
Proof.
  intros Ht (_ & _ & _ & _ & l1 & Hl).
  exists (l ++ l1). rewrite Hl, Ht. rewrite <- !app_assoc. reflexivity.
Qed.

Lemma outside_trace {A} (e : event) (answer : nat -> reply A) (w : World) :
  snd (outside e answer w) = called e w.
Proof.
  unfold outside, called. destruct (answer (calls w)); reflexivity.
Qed.

Section FirstSteps.

Variable env : Env.

Lemma loop_body_first_call fuel w :
  exists l,
    trace (snd (loop_body env fuel w)) =
    trace w ++ [Awaited BleakClient.is_connected] ++ l.
Proof.
  apply (advances_trace (called (Awaited BleakClient.is_connected) w)
           _ (trace w) [Awaited BleakClient.is_connected] []).
  - reflexivity.
  - rewrite <- (outside_trace (Awaited BleakClient.is_connected)
                  (env_is_connected env) w).
    fold (client_is_connected env).
    apply advances_trans with (w2 := snd (connect_if_needed env fuel w)).
    + unfold connect_if_needed. apply bind_after. intros b.
      destruct (negb b); [apply steady_connect | apply steady_ret].
    + unfold loop_body. apply bind_after. intros _.
      apply steady_bind; [apply steady_update_all | intros _].
      apply steady_bind; [apply steady_outside | intros _].
      apply steady_dwell.
Qed.

Lemma while_loop_first_call fuel n w :
  _loop (mug w) = true ->
  exists l,
    trace (snd (while_loop env fuel (S n) w)) =
    trace w ++ [Awaited BleakClient.is_connected] ++ l.
Proof.
  intros Hl.
  rewrite while_loop_S. unfold bind at 1, get_mug. rewrite Hl.
  destruct (loop_body_first_call fuel w) as [l Hb].
  eapply advances_trace; [exact Hb |].
  apply bind_after. intros _. apply steady_while_loop.
Qed.

Lemma async_run_started fuel w :
  async_run env fuel w =
  try_except (while_loop env fuel fuel)
    (fun e =>
       Some (log ERROR (Unexpected_error_during_loop e) ;;
             async_create_task_async_run))
    (started w).
Proof. reflexivity. Qed.

Lemma async_run_first_call fuel w :
  exists l,
    trace (snd (async_run env (S fuel) w)) =
    trace w ++ [Logged INFO Starting_mug_loop;
                Awaited BleakClient.is_connected] ++ l.
Proof.
  rewrite async_run_started.
  destruct (while_loop_first_call (S fuel) fuel (started w) eq_refl)
    as [l Hl].
  cbn [started trace] in Hl. rewrite <- app_assoc in Hl.
  apply (advances_trace _ _ (trace w)
           [Logged INFO Starting_mug_loop; Awaited BleakClient.is_connected]
           l Hl).
  apply try_except_after.
  intros e h E. inversion E; subst.
  apply steady_bind; [apply steady_emit | intros _].
  apply steady_async_create_task_async_run.
Qed.

(** [async_run] never lets an exception out. *)
Lemma async_run_never_raises fuel w e :
  fst (async_run env fuel w) <> Raised e.
Proof.
  unfold async_run, try_except.
  destruct (async_run_try env fuel w) as [[[] | x |] w']; cbn;
    discriminate.
Qed.

End FirstSteps.

(* ------------------------------------------------------------------ *)
(** ** The session loop *)

(** C4: when anything inside the [try] of [async_run] raises, [async_run]
    itself returns normally, having logged the error and handed a new
    session-loop task to the scheduler; when the scheduler starts that task,
    the loop begins again from its first step (the start is logged and the
    connection is checked). *)
Theorem async_run_restarts_after_exception :
  forall (env : Env) (fuel : nat) (w w' : World) (e : exn),
    async_run_try env fuel w = (Raised e, w') ->
    let w'' := snd (async_run env fuel w) in
    fst (async_run env fuel w) = Returned tt /\
    mug w'' = mug w' /\
    trace w'' =
      trace w' ++ [Logged ERROR (Unexpected_error_during_loop e); TaskCreated] /\
    tasks w'' = S (tasks w') /\
    forall fuel', exists l,
      trace (snd (run_next_task env (S fuel') w'')) =
      trace w'' ++ [Logged INFO Starting_mug_loop;
                    Awaited BleakClient.is_connected] ++ l.
Proof.
  intros env fuel w w' e H w''. subst w''.
  assert (async_run env fuel w =
          (Returned tt,
           {| mug := mug w'; calls := calls w';
              trace := (trace w' ++
                        [Logged ERROR (Unexpected_error_during_loop e)]) ++
                       [TaskCreated];
              tasks := S (tasks w') |})) as Hrun.
  { unfold async_run, try_except. rewrite H. reflexivity. }
  rewrite Hrun. cbn [fst snd mug trace tasks].
  split; [reflexivity |].
  split; [reflexivity |].
  split; [rewrite <- app_assoc; reflexivity |].
  split; [reflexivity |].
  intros fuel'. unfold run_next_task. cbn [tasks mug calls trace].
  apply async_run_first_call.
Qed.

Lemma async_run_restarts_after_exception_witness :
  fst (async_run three_byte_colour 1 (init true)) = Returned tt /\
  tasks (snd (async_run three_byte_colour 1 (init true))) = 2%nat.
Proof.
  pose proof (async_run_restarts_after_exception three_byte_colour 1
                (init true)
                (snd (async_run_try three_byte_colour 1 (init true)))
                ValueError eq_refl) as H.
  cbv zeta in H. destruct H as (H1 & _ & _ & H4 & _).
  split; [exact H1 | exact H4].
Defined.

(* ------------------------------------------------------------------ *)
(** ** The observer callback *)

Lemma state_notify_trace (data : list byte) (w : World) :
  exists l,
    trace (snd (state_notify data w)) = trace w ++ l /\
    count is_Callback l = 0%nat.
Proof.
  destruct data as [| d rest]; cbn.
  - exists []. split; [symmetry; apply app_nil_r | reflexivity].
  - unfold bind, get_mug. cbn beta iota.
    destruct (negb (in_1_or_state (byte_int d) (state (mug w)))); cbn.
    + eexists. split; reflexivity.
    + exists []. split; [symmetry; apply app_nil_r | reflexivity].
Qed.

(** C5, as the code has it: in the session loop the callback is invoked
    after every poll cycle, whatever [update_all] returned, success or
    failure; the notification handler never invokes it, also when it
    applies a status change. *)
Theorem callback_follows_every_poll :
  forall (env : Env) (fuel : nat) (w w0 w1 : World) (success : bool),
    connect_if_needed env fuel w = (Returned tt, w0) ->
    update_all env fuel w0 = (Returned success, w1) ->
    (exists l,
       trace (snd (loop_body env fuel w)) = trace w1 ++ [Callback] ++ l) /\
    (forall (data : list byte) (v : World),
       exists l,
         trace (snd (state_notify data v)) = trace v ++ l /\
         count is_Callback l = 0%nat).
Proof.
  intros env fuel w w0 w1 success Hc Hu.
  split; [| intros data v; apply state_notify_trace].
  unfold loop_body, bind at 1. rewrite Hc.
  unfold bind at 1. rewrite Hu.
  apply (advances_trace (called Callback w1) _ (trace w1) [Callback] []).
  - reflexivity.
  - rewrite <- (outside_trace Callback (env_update_callback env) w1).
    fold (async_update_callback env).
    apply bind_after. intros _. apply steady_dwell.
Qed.

Lemma callback_follows_every_poll_witness :
  exists l,
    trace (snd (loop_body target_read_fails 1 (init true))) =
    trace (snd (update_all target_read_fails 1
                  (snd (connect_if_needed target_read_fails 1 (init true)))))
    ++ [Callback] ++ l.
Proof.
  exact (proj1 (callback_follows_every_poll target_read_fails 1 (init true)
                  (snd (connect_if_needed target_read_fails 1 (init true)))
                  (snd (update_all target_read_fails 1
                          (snd (connect_if_needed target_read_fails 1
                                  (init true)))))
                  false eq_refl eq_refl)).
Defined.

(** C5 as the spec words it fails twice: a poll cycle that reported
    failure is followed by the callback, and a notification that changes the
    status from 3 to 5 is followed by no callback. *)
Lemma callback_after_failed_poll_and_none_after_notification :
  (let w0 := snd (connect_if_needed target_read_fails 1 (init true)) in
   let w1 := snd (update_all target_read_fails 1 w0) in
   fst (update_all target_read_fails 1 w0) = Returned false /\
   trace (snd (loop_body target_read_fails 1 (init true))) =
     trace w1 ++ [Callback] ++
     flat_map (fun _ => [Awaited BleakClient.is_connected; Slept 2])
              (range 0 15)) /\
  (let w3 := with_mug (set_state (Some 3) (mug (init true))) (init true) in
   state (mug (snd (state_notify [x05%byte] w3))) = Some 5 /\
   trace (snd (state_notify [x05%byte] w3)) =
     trace w3 ++ [Logged INFO (State_changed (Some 3) 5)]).
Proof.
  repeat split; vm_compute; reflexivity.
Qed.

(* ------------------------------------------------------------------ *)
(** ** The poll cycle *)

Lemma for_each_app {A} (l1 l2 : list A) (body : A -> M unit) (w : World) :
  for_each (l1 ++ l2) body w =
  bind (for_each l1 body) (fun _ => for_each l2 body) w.
Proof.
  revert w. induction l1 as [| x rest IH]; intros w.
  - reflexivity.
  - cbn [app for_each]. unfold bind.
    destruct (body x w) as [[[] | e |] w1]; try reflexivity.
    rewrite IH. reflexivity.
Qed.

Lemma reads_of_app (l1 l2 : list event) :
  reads_of (l1 ++ l2) = reads_of l1 ++ reads_of l2.
Proof.
  induction l1 as [| e rest IH]; [reflexivity |].
  destruct e as [c | | | | |]; cbn; try exact IH.
  destruct c; cbn; try exact IH. now rewrite IH.
Qed.

Section Poll.

Variable env : Env.

Lemma update__read_fails a w e :
  env_read_gatt_char env (uuid_of a) (calls w) = Err e ->
  update_ env a w =
  (Raised e, called (Awaited (BleakClient.read_gatt_char (uuid_of a))) w).
Proof.
  intros H.
  destruct a; cbn in H |- *;
    unfold update_led_colour, update_current_temp, update_target_temp,
      update_battery, bind, client_read_gatt_char, outside;
    rewrite H; reflexivity.
Qed.

Lemma update__reads a w w' :
  update_ env a w = (Returned tt, w') ->
  exists l, trace w' = trace w ++ l /\ reads_of l = [uuid_of a].
Proof.
  destruct a; cbn;
    unfold update_led_colour, update_current_temp, update_target_temp,
      update_battery, _temp_from_bytes, bind, client_read_gatt_char,
      outside, get_mug, lift.
  - destruct (env_read_gatt_char env LED_COLOUR_UUID (calls w))
      as [payload | e]; [| discriminate].
    destruct payload as [|r [|g [|b [|a [|x rest]]]]]; try discriminate.
    cbn. intros H. inversion H; subst; clear H. cbn.
    eexists. split; reflexivity.
  - destruct (env_read_gatt_char env CURRENT_TEMP_UUID (calls w))
      as [payload | e]; [| discriminate].
    destruct (Py.float_of_int (Py.int_from_bytes_little payload))
      as [raw | e]; [| discriminate].
    cbn. intros H. inversion H; subst; clear H. cbn.
    rewrite <- app_assoc. eexists. split; reflexivity.
  - destruct (env_read_gatt_char env TARGET_TEMP_UUID (calls w))
      as [payload | e]; [| discriminate].
    destruct (Py.float_of_int (Py.int_from_bytes_little payload))
      as [raw | e]; [| discriminate].
    cbn. intros H. inversion H; subst; clear H. cbn.
    rewrite <- app_assoc. eexists. split; reflexivity.
  - destruct (env_read_gatt_char env BATTERY_UUID (calls w))
      as [payload | e]; [| discriminate].
    destruct payload as [| b0 rest]; [discriminate |].
    cbn.
    destruct (Py.float_of_int (byte_int b0)) as [raw | e]; [| discriminate].
    cbn. intros H. inversion H; subst; clear H. cbn.
    rewrite <- app_assoc. eexists. split; reflexivity.
Qed.

Lemma for_each_update__reads xs w w' :
  for_each xs (update_ env) w = (Returned tt, w') ->
  exists l, trace w' = trace w ++ l /\ reads_of l = map uuid_of xs.
Proof.
  revert w. induction xs as [| a rest IH]; intros w; cbn [for_each].
  - unfold ret. intros H. inversion H; subst.
    exists []. split; [symmetry; apply app_nil_r | reflexivity].
  - unfold bind.
    destruct (update_ env a w) as [[[] | e |] w1] eqn:Ea; try discriminate.
    intros H.
    destruct (update__reads a w w1 Ea) as (l1 & Ht1 & Hr1).
    destruct (IH w1 H) as (l2 & Ht2 & Hr2).
    exists (l1 ++ l2). split.
    + rewrite Ht2, Ht1. symmetry. apply app_assoc.
    + rewrite reads_of_app, Hr1, Hr2. reflexivity.
Qed.

Lemma update_all_fails_at fuel w w0 wk (before after : list attr) a :
  update_attrs = before ++ a :: after ->
  connect_if_needed env fuel w = (Returned tt, w0) ->
  for_each before (update_ env) w0 = (Returned tt, wk) ->
  env_read_gatt_char env (uuid_of a) (calls wk) = Err BleakError ->
  update_all env fuel w =
  (Returned false,
   {| mug := mug wk;
      calls := S (calls wk);
      trace := trace wk ++
               [Awaited (BleakClient.read_gatt_char (uuid_of a));
                Logged ERROR (Str BleakError)];
      tasks := tasks wk |}).
Proof.
  intros Hsplit Hc Hb Hr.
  unfold update_all, try_except. rewrite Hsplit.
  unfold bind at 1. rewrite Hc.
  unfold bind at 1. rewrite for_each_app.
  unfold bind at 1. rewrite Hb.
  cbn [for_each]. unfold bind at 1.
  rewrite (update__read_fails a wk BleakError Hr).
  cbn. rewrite <- app_assoc. reflexivity.
Qed.

End Poll.

(** C2: a poll cycle that goes through reads colour, current temperature,
    target temperature and battery, in this order, and reports success.
    When the read of the k-th of them fails with a transport error, the
    cycle reports failure, reads nothing after the failed read, and the
    object is exactly as the updates before the failed read left it. *)
Theorem update_all_aborts_at_first_failed_read :
  forall (env : Env) (fuel : nat) (w w0 : World),
    connect_if_needed env fuel w = (Returned tt, w0) ->
    (forall w1,
       for_each update_attrs (update_ env) w0 = (Returned tt, w1) ->
       update_all env fuel w = (Returned true, w1) /\
       exists l,
         trace w1 = trace w0 ++ l /\
         reads_of l = [LED_COLOUR_UUID; CURRENT_TEMP_UUID;
                       TARGET_TEMP_UUID; BATTERY_UUID]) /\
    (forall (k : nat) (a : attr) (wk : World),
       nth_error update_attrs k = Some a ->
       for_each (firstn k update_attrs) (update_ env) w0 = (Returned tt, wk) ->
       env_read_gatt_char env (uuid_of a) (calls wk) = Err BleakError ->
       update_all env fuel w =
         (Returned false,
          {| mug := mug wk;
             calls := S (calls wk);
             trace := trace wk ++
                      [Awaited (BleakClient.read_gatt_char (uuid_of a));
                       Logged ERROR (Str BleakError)];
             tasks := tasks wk |}) /\
       exists l,
         trace wk = trace w0 ++ l /\
         reads_of l = map uuid_of (firstn k update_attrs)).
Proof.
  intros env fuel w w0 Hc. split.
  - intros w1 Hf. split.
    + unfold update_all, try_except.
      unfold bind at 1. rewrite Hc.
      unfold bind at 1. rewrite Hf. reflexivity.
    + apply (for_each_update__reads env update_attrs w0 w1 Hf).
  - intros k a wk Hn Hf Hr. split.
    + apply (update_all_fails_at env fuel w w0 wk
               (firstn k update_attrs) (skipn (S k) update_attrs) a);
        try assumption.
      destruct k as [| [| [| [| k]]]]; cbn in Hn;
        try (inversion Hn; subst; reflexivity).
      destruct k; discriminate.
    + apply (for_each_update__reads env _ w0 wk Hf).
Qed.

Lemma update_all_aborts_at_first_failed_read_witness :
  let w0 := snd (connect_if_needed target_read_fails 1 (init true)) in
  let wk := snd (for_each (firstn 2 update_attrs)
                   (update_ target_read_fails) w0) in
  update_all target_read_fails 1 (init true) =
    (Returned false,
     {| mug := mug wk;
        calls := S (calls wk);
        trace := trace wk ++
                 [Awaited (BleakClient.read_gatt_char TARGET_TEMP_UUID);
                  Logged ERROR (Str BleakError)];
        tasks := tasks wk |}) /\
  led_colour_rgb (mug wk) = [255; 0; 128] /\
  current_temp (mug wk) = Some 0x1p+0%float /\
  target_temp (mug wk) = None /\
  battery (mug wk) = None.
Proof.
  intros w0 wk. split.
  - apply (proj2 (update_all_aborts_at_first_failed_read target_read_fails 1
                    (init true) w0 eq_refl)
             2%nat target_temp_ wk eq_refl).
    + vm_compute. reflexivity.
    + reflexivity.
  - vm_compute. repeat split.
Defined.

(* ------------------------------------------------------------------ *)
(** ** Connecting *)

Lemma count_app (p : event -> bool) (l1 l2 : list event) :
  count p (l1 ++ l2) = (count p l1 + count p l2)%nat.
Proof.
  unfold count. rewrite filter_app. apply length_app.
Qed.

Section Connecting.

Variable env : Env.
Hypothesis connect_transport_only : forall n, transport_only (env_connect env n).
Hypothesis pair_transport_only : forall n, transport_only (env_pair env n).



End Connecting.





Lemma range_1_11 : range 1 (10 + 1) = [1; 2; 3; 4; 5; 6; 7; 8; 9; 10].
Proof. reflexivity. Qed.

Lemma out_of_range_attempts (connected : bool) (w : World) :
  connect_attempts out_of_range (range 1 (10 + 1)) connected w =
  (Returned connected,
   {| mug := mug w;
      calls := 10 + calls w;
      trace := trace w ++ flat_map failed_attempt (range 1 (10 + 1));
      tasks := tasks w |}).
Proof.
  rewrite range_1_11. cbn. rewrite <- !app_assoc. reflexivity.
Qed.

Lemma out_of_range_burst (fuel : nat) (w : World) :
  connect out_of_range (S fuel) w =
  bind (connect out_of_range fuel) (fun _ => subscribe out_of_range)
       (after_burst w).
Proof.
  rewrite connect_S. unfold bind at 1. rewrite out_of_range_attempts.
  cbn [negb]. unfold after_burst, failed_burst.
  unfold bind at 1 2 3 4 5. cbn. rewrite <- !app_assoc. reflexivity.
Qed.

(** C1, at the input where the code departs from it: against a mug that is
    out of range a call of [connect] goes through one burst, of ten calls of
    [client.connect()] followed by the callback and one five-minute sleep,
    and then calls [connect] again; whatever that nested call does is what
    the call does, with the subscription after it if it returns.  Between
    the attempts nothing is awaited: [asyncio.sleep(30)] is built ten times
    and dropped, so the burst contains no 30-second suspension. *)
Theorem connect_out_of_range_never_waits_30s :
  forall (fuel : nat) (w : World),
    connect out_of_range (S fuel) w =
      bind (connect out_of_range fuel) (fun _ => subscribe out_of_range)
           (after_burst w) /\
    trace (after_burst w) = trace w ++ failed_burst /\
    count is_connect_call failed_burst = 10%nat /\
    count (is_Slept 30) failed_burst = 0%nat /\
    count is_Callback failed_burst = 1%nat /\
    count (is_Slept 300) failed_burst = 1%nat /\
    skipn 30 failed_burst =
      [Callback; Logged WARNING Failed_to_connect_after_10_tries; Slept 300].
Proof.
  intros fuel w. split; [apply out_of_range_burst | repeat split].
Qed.

(* ------------------------------------------------------------------ *)
(** ** Relations every step of a method respects *)

Section Respects.

Variable R : World -> World -> Prop.
Hypothesis R_refl : forall w, R w w.
Hypothesis R_trans : forall w1 w2 w3, R w1 w2 -> R w2 w3 -> R w1 w3.

Lemma respects_ret {A} (a : A) : respects R (ret a).
Proof. intros w. apply R_refl. Qed.

Lemma respects_raise {A} (e : exn) : respects R (@raise A e).
Proof. intros w. apply R_refl. Qed.

Lemma respects_out_of_fuel {A} : respects R (@out_of_fuel A).
Proof. intros w. apply R_refl. Qed.

Lemma respects_lift {A} (r : reply A) : respects R (lift r).
Proof. destruct r; [apply respects_ret | apply respects_raise]. Qed.

Lemma respects_get_mug : respects R get_mug.
Proof. intros w. apply R_refl. Qed.

Lemma respects_bind {A B} (c : M A) (k : A -> M B) :
  respects R c -> (forall a, respects R (k a)) -> respects R (bind c k).
Proof.
  intros Hc Hk w. unfold bind. specialize (Hc w).
  destruct (c w) as [[a | e |] w']; cbn in *; try assumption.
  eapply R_trans; [eassumption | apply Hk].
Qed.

Lemma respects_try_except {A} (body : M A) (handler : exn -> option (M A)) :
  respects R body ->
  (forall e h, handler e = Some h -> respects R h) ->
  respects R (try_except body handler).
Proof.
  intros Hb Hh w. unfold try_except. specialize (Hb w).
  destruct (body w) as [[a | e |] w']; cbn in *; try assumption.
  destruct (handler e) as [h |] eqn:E; cbn; try assumption.
  eapply R_trans; [eassumption | apply (Hh e h E)].
Qed.

Lemma respects_for_each {A} (xs : list A) (body : A -> M unit) :
  (forall x, respects R (body x)) -> respects R (for_each xs body).
Proof.
  intros Hb. induction xs as [| x rest IH]; cbn.
  - apply respects_ret.
  - apply respects_bind; [apply Hb | intros _; exact IH].
Qed.

(** The steps methods are made of. *)
Hypothesis R_emit : forall e, respects R (emit e).
Hypothesis R_outside :
  forall A e (answer : nat -> reply A), respects R (outside e answer).
Hypothesis R_set_led_colour_rgb :
  forall r g b : byte,
    respects R (modify_mug (set_led_colour_rgb
                              [byte_int r; byte_int g; byte_int b])).
Hypothesis R_set_current_temp :
  forall v, respects R (modify_mug (set_current_temp v)).
Hypothesis R_set_target_temp_attr :
  forall v, respects R (modify_mug (set_target_temp_attr v)).
Hypothesis R_set_battery :
  forall v, respects R (modify_mug (set_battery v)).
Hypothesis R_set_state :
  forall v, v <> 1 -> respects R (modify_mug (set_state (Some v))).
Hypothesis R_set__loop :
  forall v, respects R (modify_mug (set__loop v)).
Hypothesis R_create_task : respects R async_create_task_async_run.

Ltac respects_step :=
  first
    [ assumption
    | apply respects_ret | apply respects_raise | apply respects_out_of_fuel
    | apply respects_lift | apply respects_get_mug
    | apply R_emit | apply R_outside | apply R_set_led_colour_rgb
    | apply R_set_current_temp | apply R_set_target_temp_attr
    | apply R_set_battery | apply R_set__loop | apply R_create_task
    | match goal with
      | H : forall _, respects R _ |- _ => apply H
      | H : forall _ _, respects R _ |- _ => apply H
      end
    | apply respects_bind; [| intros ?]
    | apply respects_try_except;
      [| let e := fresh "e" in
         let h := fresh "h" in
         let E := fresh "E" in
         intros e h E; try destruct (is_BleakError e);
         inversion E; subst; clear E ]
    | apply respects_for_each; intros ?
    | match goal with
      | |- respects R (if ?b then _ else _) => destruct b
      | |- respects R (match ?x with _ => _ end) => destruct x
      end ].

Ltac respects_method := repeat respects_step.

Variable env : Env.

Lemma respects__temp_from_bytes bs : respects R (_temp_from_bytes bs).
Proof. unfold _temp_from_bytes. respects_method. Qed.

Lemma respects_update_ a : respects R (update_ env a).
Proof.
  pose proof respects__temp_from_bytes.
  destruct a; cbn;
    unfold update_led_colour, update_current_temp, update_target_temp,
      update_battery, client_read_gatt_char, log;
    respects_method.
Qed.

Lemma respects_connect_attempts indices connected :
  respects R (connect_attempts env indices connected).
Proof.
  revert connected.
  induction indices as [| i rest IH]; intros connected; cbn.
  - apply respects_ret.
  - apply respects_bind; [| intros b; apply IH].
    unfold connect_attempt, client_connect, client_pair, log,
      sleep_not_awaited.
    respects_method.
Qed.

Lemma respects_subscribe : respects R (subscribe env).
Proof.
  unfold subscribe, client_start_notify, log. respects_method.
Qed.

Lemma respects_connect fuel : respects R (connect env fuel).
Proof.
  induction fuel as [| fuel IH].
  - apply respects_out_of_fuel.
  - rewrite connect_S.
    pose proof respects_connect_attempts. pose proof respects_subscribe.
    unfold async_update_callback, log, await_sleep.
    respects_method.
Qed.

Lemma respects_connect_if_needed fuel : respects R (connect_if_needed env fuel).
Proof.
  pose proof respects_connect.
  unfold connect_if_needed, client_is_connected. respects_method.
Qed.

Lemma respects_update_all fuel : respects R (update_all env fuel).
Proof.
  pose proof respects_connect_if_needed. pose proof respects_update_.
  unfold update_all, log. respects_method.
Qed.

Lemma respects_dwell : respects R (dwell env).
Proof.
  unfold dwell, client_is_connected, await_sleep. respects_method.
Qed.

Lemma respects_loop_body fuel : respects R (loop_body env fuel).
Proof.
  pose proof respects_connect_if_needed. pose proof respects_update_all.
  pose proof respects_dwell.
  unfold loop_body, async_update_callback. respects_method.
Qed.

Lemma respects_while_loop fuel n : respects R (while_loop env fuel n).
Proof.
  pose proof respects_loop_body.
  induction n as [| n IH].
  - apply respects_out_of_fuel.
  - rewrite while_loop_S. respects_method.
Qed.

Lemma respects_async_run fuel : respects R (async_run env fuel).
Proof.
  pose proof respects_while_loop.
  unfold async_run, async_run_try, log. respects_method.
Qed.

Lemma respects_state_notify data : respects R (state_notify data).
Proof.
  unfold state_notify. destruct data as [| d rest].
  - apply respects_raise.
  - apply respects_bind; [apply respects_get_mug | intros self].
    unfold in_1_or_state.
    destruct (byte_int d =? 1) eqn:E1; cbn [orb negb].
    + apply respects_ret.
    + apply Z.eqb_neq in E1.
      destruct (negb _); [| apply respects_ret].
      apply respects_bind; [apply R_emit | intros _].
      apply R_set_state. exact E1.
Qed.

Lemma respects_disconnect : respects R (disconnect env).
Proof.
  unfold disconnect, client_stop_notify, client_is_connected,
    client_disconnect.
  respects_method.
Qed.

Lemma respects_set_target_temp temp : respects R (set_target_temp env temp).
Proof.
  unfold set_target_temp, client_write_gatt_char, log. respects_method.
Qed.

End Respects.

Lemma same_loop_and_tasks_refl w : same_loop_and_tasks w w.
Proof. split; reflexivity. Qed.

Lemma same_loop_and_tasks_trans w1 w2 w3 :
  same_loop_and_tasks w1 w2 -> same_loop_and_tasks w2 w3 ->
  same_loop_and_tasks w1 w3.
Proof. unfold same_loop_and_tasks. intuition congruence. Qed.

Lemma same_loop_and_tasks_outside A e (answer : nat -> reply A) :
  respects same_loop_and_tasks (outside e answer).
Proof.
  intros w. unfold outside. destruct (answer (calls w)); split; reflexivity.
Qed.

Lemma same_state_outside A e (answer : nat -> reply A) :
  respects same_state (outside e answer).
Proof.
  intros w. unfold outside. destruct (answer (calls w)); reflexivity.
Qed.

Lemma stays_sound_outside A e (answer : nat -> reply A) :
  respects stays_sound (outside e answer).
Proof.
  intros w. unfold outside. destruct (answer (calls w)); intros H; exact H.
Qed.

Lemma stays_sound_trans w1 w2 w3 :
  stays_sound w1 w2 -> stays_sound w2 w3 -> stays_sound w1 w3.
Proof. unfold stays_sound. auto. Qed.

Section Instances.

Variable env : Env.

Lemma while_loop_same_loop_and_tasks fuel n :
  respects same_loop_and_tasks (while_loop env fuel n).
Proof.
  apply respects_while_loop;
    try exact same_loop_and_tasks_refl;
    try exact same_loop_and_tasks_trans;
    try exact same_loop_and_tasks_outside;
    intros; intros w; split; reflexivity.
Qed.

Lemma loop_body_same_loop_and_tasks fuel :
  respects same_loop_and_tasks (loop_body env fuel).
Proof.
  apply respects_loop_body;
    try exact same_loop_and_tasks_refl;
    try exact same_loop_and_tasks_trans;
    try exact same_loop_and_tasks_outside;
    intros; intros w; split; reflexivity.
Qed.

Lemma connect_same_state fuel : respects same_state (connect env fuel).
Proof.
  apply respects_connect; try exact same_state_outside;
    try (intros; intros w; reflexivity).
  - intros w. reflexivity.
  - unfold same_state. intros w1 w2 w3. congruence.
Qed.

Lemma update_all_same_state fuel : respects same_state (update_all env fuel).
Proof.
  apply respects_update_all; try exact same_state_outside;
    try (intros; intros w; reflexivity).
  - intros w. reflexivity.
  - unfold same_state. intros w1 w2 w3. congruence.
Qed.

Lemma async_run_same_state fuel : respects same_state (async_run env fuel).
Proof.
  apply respects_async_run; try exact same_state_outside;
    try (intros; intros w; reflexivity).
  - intros w. reflexivity.
  - unfold same_state. intros w1 w2 w3. congruence.
Qed.

Lemma disconnect_same_state : respects same_state (disconnect env).
Proof.
  apply respects_disconnect; try exact same_state_outside;
    try (intros; intros w; reflexivity).
  - intros w. reflexivity.
  - unfold same_state. intros w1 w2 w3. congruence.
Qed.

Lemma set_target_temp_same_state temp :
  respects same_state (set_target_temp env temp).
Proof.
  apply respects_set_target_temp; try exact same_state_outside;
    try (intros; intros w; reflexivity).
  - intros w. reflexivity.
  - unfold same_state. intros w1 w2 w3. congruence.
Qed.

End Instances.

Section Soundness.

Variable env : Env.

Lemma stays_sound_set_any (f : EmberMug -> EmberMug) :
  (forall m, sound_mug m -> sound_mug (f m)) ->
  respects stays_sound (modify_mug f).
Proof.
  intros Hf w H. cbn. apply Hf. exact H.
Qed.

Lemma stays_sound_same_mug {A} (c : M A) :
  (forall w, mug (snd (c w)) = mug w) -> respects stays_sound c.
Proof.
  intros Hc w H. rewrite Hc. exact H.
Qed.

(** Every method keeps a sound object sound. *)
Lemma sound_after_any_method :
  (forall fuel, respects stays_sound (async_run env fuel)) /\
  (forall fuel, respects stays_sound (connect env fuel)) /\
  (forall fuel, respects stays_sound (update_all env fuel)) /\
  (forall data, respects stays_sound (state_notify data)) /\
  respects stays_sound (disconnect env) /\
  (forall temp, respects stays_sound (set_target_temp env temp)).
Proof.
  assert (forall w, stays_sound w w) as Hrefl by (intros w H; exact H).
  assert (forall e, respects stays_sound (emit e)) as Hemit
    by (intros e; apply stays_sound_same_mug; reflexivity).
  assert (forall r g b : byte,
            respects stays_sound
              (modify_mug (set_led_colour_rgb
                             [byte_int r; byte_int g; byte_int b]))) as Hled.
  { intros r g b. apply stays_sound_set_any.
    intros m (Hs & _ & Hc). repeat split; try assumption.
    exists r, g, b. reflexivity. }
  assert (forall v, respects stays_sound (modify_mug (set_current_temp v)))
    as Hcur by (intros v; apply stays_sound_set_any; intros m H; exact H).
  assert (forall v, respects stays_sound (modify_mug (set_target_temp_attr v)))
    as Htar by (intros v; apply stays_sound_set_any; intros m H; exact H).
  assert (forall v, respects stays_sound (modify_mug (set_battery v)))
    as Hbat by (intros v; apply stays_sound_set_any; intros m H; exact H).
  assert (forall v, respects stays_sound (modify_mug (set__loop v)))
    as Hloop by (intros v; apply stays_sound_set_any; intros m H; exact H).
  assert (forall v, v <> 1 ->
            respects stays_sound (modify_mug (set_state (Some v)))) as Hst.
  { intros v Hv. apply stays_sound_set_any.
    intros m (_ & Hl & Hc). repeat split; try assumption.
    cbn. congruence. }
  assert (respects stays_sound async_create_task_async_run) as Htask
    by (apply stays_sound_same_mug; reflexivity).
  split; [| split; [| split; [| split; [| split]]]].
  - intros fuel. apply (respects_async_run stays_sound);
      try assumption; try exact stays_sound_trans;
      exact stays_sound_outside.
  - intros fuel. apply (respects_connect stays_sound);
      try assumption; try exact stays_sound_trans;
      exact stays_sound_outside.
  - intros fuel. apply (respects_update_all stays_sound);
      try assumption; try exact stays_sound_trans;
      exact stays_sound_outside.
  - intros data. apply (respects_state_notify stays_sound);
      try assumption; try exact stays_sound_trans;
      exact stays_sound_outside.
  - apply (respects_disconnect stays_sound);
      try assumption; try exact stays_sound_trans;
      exact stays_sound_outside.
  - intros temp. apply (respects_set_target_temp stays_sound);
      try assumption; try exact stays_sound_trans;
      exact stays_sound_outside.
Qed.

Lemma sound_init metric : sound_mug (mug (init metric)).
Proof.
  repeat split.
  - discriminate.
  - exists xff%byte, xff%byte, xff%byte. reflexivity.
Qed.

Lemma reachable_sound w : reachable env w -> sound_mug (mug w).
Proof.
  destruct sound_after_any_method as (Hrun & Hcon & Hupd & Hnot & Hdis & Hset).
  intros H.
  induction H as [metric | fuel w H IH | fuel w H IH | fuel w H IH
                 | data w H IH | w H IH | temp w H IH].
  - apply sound_init.
  - unfold run_next_task. destruct (tasks w) as [| k]; [exact IH |].
    apply (Hrun fuel
             {| mug := mug w; calls := calls w; trace := trace w;
                tasks := k |}).
    exact IH.
  - apply (Hcon fuel w IH).
  - apply (Hupd fuel w IH).
  - apply (Hnot data w IH).
  - apply (Hdis w IH).
  - apply (Hset temp w IH).
Qed.

End Soundness.

(* ------------------------------------------------------------------ *)
(** ** Further properties of the session *)

(** X1: the stored mug status is changed by notifications only: connecting,
    polling, the session loop, disconnecting and writing the target
    temperature all leave it as it was, however they end. *)
Theorem status_changes_only_by_notification :
  forall (env : Env) (fuel : nat) (temp : float) (w : World),
    state (mug (snd (connect env fuel w))) = state (mug w) /\
    state (mug (snd (update_all env fuel w))) = state (mug w) /\
    state (mug (snd (async_run env fuel w))) = state (mug w) /\
    state (mug (snd (disconnect env w))) = state (mug w) /\
    state (mug (snd (set_target_temp env temp w))) = state (mug w).
Proof.
  intros env fuel temp w.
  split; [apply (connect_same_state env fuel w) |].
  split; [apply (update_all_same_state env fuel w) |].
  split; [apply (async_run_same_state env fuel w) |].
  split; [apply (disconnect_same_state env w) |].
  apply (set_target_temp_same_state env temp w).
Qed.

(** X2: the stored status is never 1, in any world the session can reach:
    it starts unknown and the notification handler never stores 1. *)
Theorem status_is_never_1 :
  forall (env : Env) (w : World),
    reachable env w -> state (mug w) <> Some 1.
Proof.
  intros env w H. apply (reachable_sound env w H).
Qed.

Lemma status_is_never_1_witness :
  state (mug (snd (state_notify [x01%byte]
                     (snd (state_notify [x05%byte] (init true)))))) <> Some 1.
Proof.
  apply (status_is_never_1 healthy).
  apply reach_state_notify. apply reach_state_notify. apply reach_init.
Defined.

Lemma format_02x_byte_length (b : byte) :
  String.length (Py.format_02x (byte_int b)) = 2%nat.
Proof.
  rewrite format_02x_byte. reflexivity.
Qed.

Lemma length_append (s1 s2 : string) :
  String.length (s1 ++ s2) = (String.length s1 + String.length s2)%nat.
Proof.
  induction s1 as [| c s1 IH]; cbn; [reflexivity | now rewrite IH].
Qed.

(** X3: the [colour] property never fails in a world the session can
    reach: the colour attribute always holds three byte values, and the
    result is a string of seven characters. *)
Theorem colour_always_formats :
  forall (env : Env) (w : World),
    reachable env w ->
    exists s, colour (mug w) = Ok s /\ String.length s = 7%nat.
Proof.
  intros env w H.
  destruct (reachable_sound env w H) as (_ & (r & g & b & Hl) & _).
  unfold colour. rewrite Hl. eexists. split; [reflexivity |].
  cbn [String.length]. rewrite !length_append, !format_02x_byte_length.
  reflexivity.
Qed.

Lemma colour_always_formats_witness :
  exists s,
    colour (mug (snd (update_all healthy 1 (init true)))) = Ok s /\
    String.length s = 7%nat.
Proof.
  apply (colour_always_formats healthy).
  apply reach_update_all. apply reach_init.
Defined.

(** X4: the unit configuration and the [charging] attribute are never
    changed by any method: [use_metric] is what the constructor was given
    and [charging] stays what it was. *)
Theorem configuration_is_never_changed :
  forall (env : Env) (fuel : nat) (data : list byte) (temp : float)
         (w : World),
    let same (w' : World) :=
      use_metric (mug w') = use_metric (mug w) /\
      charging (mug w') = charging (mug w) in
    same (snd (async_run env fuel w)) /\
    same (snd (connect env fuel w)) /\
    same (snd (update_all env fuel w)) /\
    same (snd (state_notify data w)) /\
    same (snd (disconnect env w)) /\
    same (snd (set_target_temp env temp w)).
Proof.
  intros env fuel data temp w same. subst same. cbv beta.
  pose proof (steady_async_run env fuel w) as (_ & H1 & H1' & _).
  pose proof (steady_connect env fuel w) as (_ & H2 & H2' & _).
  pose proof (steady_update_all env fuel w) as (_ & H3 & H3' & _).
  pose proof (steady_state_notify data w) as (_ & H4 & H4' & _).
  pose proof (steady_disconnect env w) as (_ & H5 & H5' & _).
  pose proof (steady_set_target_temp env temp w) as (_ & H6 & H6' & _).
  repeat split; assumption.
Qed.

Lemma while_loop_does_not_return (env : Env) (fuel n : nat) (w : World) :
  _loop (mug w) = true ->
  fst (while_loop env fuel n w) <> Returned tt.
Proof.
  revert w. induction n as [| n IH]; intros w Hl.
  - discriminate.
  - rewrite while_loop_S. unfold bind at 1, get_mug. rewrite Hl.
    unfold bind.
    pose proof (loop_body_same_loop_and_tasks env fuel w) as [Hl' _].
    destruct (loop_body env fuel w) as [[[] | e |] w1]; cbn in *;
      try discriminate.
    apply IH. congruence.
Qed.

(** X5: the session loop never ends by itself.  Whatever the mug and the
    host answer, [async_run] does not raise, and it returns only after an
    exception made it log the error and hand exactly one new session-loop
    task to the scheduler; as long as it runs, the queue is as it was and
    [_loop] is set. *)
Theorem session_loop_only_ends_by_restart :
  forall (env : Env) (fuel : nat) (w : World),
    match fst (async_run env fuel w) with
    | Returned _ =>
        tasks (snd (async_run env fuel w)) = S (tasks w) /\
        exists t e,
          trace (snd (async_run env fuel w)) =
          t ++ [Logged ERROR (Unexpected_error_during_loop e); TaskCreated]
    | Raised _ => False
    | OutOfFuel =>
        tasks (snd (async_run env fuel w)) = tasks w /\
        _loop (mug (snd (async_run env fuel w))) = true
    end.
Proof.
  intros env fuel w. rewrite async_run_started. unfold try_except.
  pose proof (while_loop_does_not_return env fuel fuel (started w) eq_refl)
    as Hnot.
  pose proof (while_loop_same_loop_and_tasks env fuel fuel (started w))
    as [Hl Ht].
  destruct (while_loop env fuel fuel (started w)) as [[[] | e |] w1];
    cbn in *.
  - exfalso. apply Hnot. reflexivity.
  - split; [congruence |].
    exists (trace w1), e. rewrite <- app_assoc. reflexivity.
  - split; assumption.
Qed.

(** X6: a notification delivered twice counts once: the second delivery of
    the same payload changes neither the object nor the log.  An empty
    payload raises [IndexError] and changes nothing. *)
Theorem state_notify_twice_is_once :
  forall (data : list byte) (w : World),
    snd (state_notify data (snd (state_notify data w))) =
      snd (state_notify data w) /\
    state_notify [] w = (Raised IndexError, w).
Proof.
  intros data w. split; [| reflexivity].
  destruct data as [| d rest]; [reflexivity |].
  unfold state_notify, bind, get_mug. cbn beta iota.
  destruct (negb (in_1_or_state (byte_int d) (state (mug w)))) eqn:E.
  - cbn. unfold in_1_or_state in *.
    rewrite Z.eqb_refl, orb_true_r. reflexivity.
  - cbn. rewrite E. reflexivity.
Qed.

Lemma update_all_raises_at (env : Env) (fuel : nat) (w w0 wk wk' : World)
      (before after : list attr) (a : attr) (e : exn) :
  update_attrs = before ++ a :: after ->
  connect_if_needed env fuel w = (Returned tt, w0) ->
  for_each before (update_ env) w0 = (Returned tt, wk) ->
  update_ env a wk = (Raised e, wk') ->
  is_BleakError e = false ->
  update_all env fuel w = (Raised e, wk').
Proof.
  intros Hsplit Hc Hb Hr He.
  unfold update_all, try_except. rewrite Hsplit.
  unfold bind at 1. rewrite Hc.
  unfold bind at 1. rewrite for_each_app.
  unfold bind at 1. rewrite Hb.
  cbn [for_each]. unfold bind at 1. rewrite Hr, He. reflexivity.
Qed.

Lemma update_battery_unpack (env : Env) (w : World) (payload : list byte) :
  env_read_gatt_char env BATTERY_UUID (calls w) = Ok payload ->
  update_battery env w =
  match payload with
  | [] =>
      (Raised IndexError,
       called (Awaited (BleakClient.read_gatt_char BATTERY_UUID)) w)
  | b0 :: _ =>
      bind (lift (Py.float_of_int (byte_int b0)))
           (fun battery_percent =>
              log DEBUG (Battery_is_at battery_percent) ;;
              modify_mug (set_battery (Some (Py.round2 battery_percent))))
           (called (Awaited (BleakClient.read_gatt_char BATTERY_UUID)) w)
  end.
Proof.
  intros H.
  unfold update_battery, bind at 1, client_read_gatt_char, outside.
  rewrite H. destruct payload; reflexivity.
Qed.

(** X7: a payload that cannot be decoded is not a transport error, so the
    poll cycle does not report failure, it raises.  A colour payload that
    does not hold exactly four bytes makes [update_all] raise [ValueError]
    before anything was stored; an empty battery payload makes it raise
    [IndexError] after the colour and both temperatures were stored. *)
Theorem undecodable_payload_raises_from_poll :
  forall (env : Env) (fuel : nat) (w w0 : World),
    connect_if_needed env fuel w = (Returned tt, w0) ->
    (forall payload,
       env_read_gatt_char env LED_COLOUR_UUID (calls w0) = Ok payload ->
       List.length payload <> 4%nat ->
       update_all env fuel w =
       (Raised ValueError,
        called (Awaited (BleakClient.read_gatt_char LED_COLOUR_UUID)) w0)) /\
    (forall wk,
       for_each [led_colour; current_temp_; target_temp_] (update_ env) w0 =
         (Returned tt, wk) ->
       env_read_gatt_char env BATTERY_UUID (calls wk) = Ok [] ->
       update_all env fuel w =
       (Raised IndexError,
        called (Awaited (BleakClient.read_gatt_char BATTERY_UUID)) wk)).
Proof.
  intros env fuel w w0 Hc. split.
  - intros payload Hr Hlen.
    apply (update_all_raises_at env fuel w w0 w0 _ []
             [current_temp_; target_temp_; battery_] led_colour ValueError);
      try reflexivity; try assumption.
    cbn [update_]. rewrite (update_led_colour_unpack env w0 payload Hr).
    destruct payload as [|r [|g [|b [|a [|x rest]]]]]; try reflexivity.
    exfalso. apply Hlen. reflexivity.
  - intros wk Hb Hr.
    apply (update_all_raises_at env fuel w w0 wk _
             [led_colour; current_temp_; target_temp_] [] battery_ IndexError);
      try reflexivity; try assumption.
    cbn [update_]. rewrite (update_battery_unpack env wk [] Hr). reflexivity.
Qed.

Lemma undecodable_payload_raises_from_poll_witness :
  update_all three_byte_colour 1 (init true) =
  (Raised ValueError,
   called (Awaited (BleakClient.read_gatt_char LED_COLOUR_UUID))
          (snd (connect_if_needed three_byte_colour 1 (init true)))).
Proof.
  apply (proj1 (undecodable_payload_raises_from_poll three_byte_colour 1
                  (init true)
                  (snd (connect_if_needed three_byte_colour 1 (init true)))
                  eq_refl)
           [xff; x00; x80]%byte eq_refl).
  discriminate.
Defined.

(** X8: no transport error leaves the poll cycle: [update_all] never
    raises [BleakError] (not from the reads, and not from the [connect] it
    may run first), and when it returns [False] the last thing it did was
    to log that error. *)
Theorem update_all_absorbs_transport_errors :
  forall (env : Env) (fuel : nat) (w : World),
    match fst (update_all env fuel w) with
    | Raised e => is_BleakError e = false
    | Returned false =>
        exists t,
          trace (snd (update_all env fuel w)) =
          t ++ [Logged ERROR (Str BleakError)]
    | _ => True
    end.
Proof.
  intros env fuel w. unfold update_all, try_except.
  destruct (bind (connect_if_needed env fuel) _ w) as [[b | e |] w1] eqn:E.
  - cbn. destruct b; [exact I |].
    exfalso. revert E. unfold bind.
    destruct (connect_if_needed env fuel w) as [[[] | e |] w0];
      try discriminate.
    destruct (for_each update_attrs (update_ env) w0) as [[[] | e |] w2];
      discriminate.
  - destruct e; cbn; try reflexivity.
    exists (trace w1). reflexivity.
  - exact I.
Qed.

Lemma byte_as_float (b : byte) :
  Py.float_of_int (byte_int b) = Ok (float_of_byte b) /\
  Py.round2 (float_of_byte b) = float_of_byte b.
Proof.
  destruct b; vm_compute; split; reflexivity.
Qed.

(** X9: [update_battery] stores the first byte of the payload as a float,
    exactly and without clamping it to 100 (byte 255 gives 255.0), logs it,
    and ignores any further bytes; on an empty payload it raises
    [IndexError] and the battery attribute keeps its value. *)
Theorem update_battery_stores_first_byte :
  forall (env : Env) (w : World) (payload : list byte),
    env_read_gatt_char env BATTERY_UUID (calls w) = Ok payload ->
    match payload with
    | [] =>
        update_battery env w =
        (Raised IndexError,
         called (Awaited (BleakClient.read_gatt_char BATTERY_UUID)) w)
    | b0 :: _ =>
        update_battery env w =
        (Returned tt,
         {| mug := set_battery (Some (float_of_byte b0)) (mug w);
            calls := S (calls w);
            trace := trace w ++
                     [Awaited (BleakClient.read_gatt_char BATTERY_UUID);
                      Logged DEBUG (Battery_is_at (float_of_byte b0))];
            tasks := tasks w |})
    end /\
    float_of_byte xff = 0x1.fep+7%float.
Proof.
  intros env w payload H. split; [| reflexivity].
  rewrite (update_battery_unpack env w payload H).
  destruct payload as [| b0 rest]; [reflexivity |].
  destruct (byte_as_float b0) as [Hf Hr].
  unfold bind, lift. rewrite Hf.
  unfold ret, log, emit, modify_mug, called. cbn [mug calls trace tasks].
  rewrite Hr, <- app_assoc. reflexivity.
Qed.

Lemma update_battery_stores_first_byte_witness :
  update_battery healthy (init true) =
  (Returned tt,
   {| mug := set_battery (Some (float_of_byte x50)) (mug (init true));
      calls := 1;
      trace := trace (init true) ++
               [Awaited (BleakClient.read_gatt_char BATTERY_UUID);
                Logged DEBUG (Battery_is_at (float_of_byte x50))];
      tasks := 1 |}).
Proof.
  exact (proj1 (update_battery_stores_first_byte healthy (init true)
                  [x50]%byte eq_refl)).
Defined.

Lemma dwell_for_each (env : Env) (xs : list Z) (w : World) :
  (forall n, exists b, env_is_connected env n = Ok b) ->
  for_each xs (fun _ => client_is_connected env ;; await_sleep 2) w =
  (Returned tt,
   {| mug := mug w;
      calls := List.length xs + calls w;
      trace := trace w ++
               flat_map (fun _ => [Awaited BleakClient.is_connected; Slept 2])
                        xs;
      tasks := tasks w |}).
Proof.
  intros Hok. revert w. induction xs as [| x rest IH]; intros w.
  - cbn. unfold ret. rewrite app_nil_r. destruct w; reflexivity.
  - cbn [for_each]. unfold bind at 1 2, client_is_connected, outside.
    destruct (Hok (calls w)) as [b Hb]. rewrite Hb.
    unfold await_sleep, emit. cbn [mug calls trace tasks].
    rewrite IH. cbn [mug calls trace tasks flat_map List.length].
    f_equal. f_equal; [lia |].
    rewrite <- !app_assoc. reflexivity.
Qed.

(** X10: between two polls the loop dwells for 30 seconds in 15 slices of
    2 seconds, asking the client before each slice whether it is connected;
    the answer is not looked at, so a lost connection does not shorten the
    dwell. *)
Theorem dwell_is_fifteen_slices :
  forall (env : Env) (w : World),
    (forall n, exists b, env_is_connected env n = Ok b) ->
    dwell env w =
    (Returned tt,
     {| mug := mug w;
        calls := 15 + calls w;
        trace := trace w ++ dwell_slices;
        tasks := tasks w |}) /\
    slept_total dwell_slices = 30 /\
    count is_client_call dwell_slices = 15%nat.
Proof.
  intros env w Hok. split; [| split; reflexivity].
  unfold dwell. rewrite (dwell_for_each env (range 0 15) w Hok).
  reflexivity.
Qed.

Lemma dwell_is_fifteen_slices_witness :
  dwell out_of_range (init true) =
  (Returned tt,
   {| mug := mug (init true);
      calls := 15;
      trace := trace (init true) ++ dwell_slices;
      tasks := 1 |}).
Proof.
  apply (dwell_is_fifteen_slices out_of_range (init true)).
  intros n. exists false. reflexivity.
Defined.

(** X11: once an attempt of the burst has succeeded, [connect] does not
    call back, does not sleep and does not recurse: it tries to subscribe to
    the state notifications once and returns normally whatever
    [start_notify] does, logging a warning for a transport error and an
    error for anything else. *)
Theorem connect_subscribes_after_success :
  forall (env : Env) (fuel : nat) (w w1 : World),
    connect_attempts env (range 1 (10 + 1)) false w = (Returned true, w1) ->
    connect env (S fuel) w =
    (Returned tt,
     {| mug := mug w1;
        calls := S (calls w1);
        trace := trace w1 ++
                 [Logged INFO Try_to_subscribe_to_STATE;
                  Awaited (BleakClient.start_notify STATE_UUID)] ++
                 match env_start_notify env STATE_UUID (calls w1) with
                 | Ok _ => []
                 | Err e =>
                     if is_BleakError e
                     then [Logged WARNING Failed_to_subscribe_to_state_attr]
                     else [Logged ERROR
                             (Unexpected_error_connecting_to_notify e)]
                 end;
        tasks := tasks w1 |}).
Proof.
  intros env fuel w w1 H.
  rewrite connect_S. unfold bind at 1. rewrite H.
  cbn [negb]. unfold bind at 1, ret.
  unfold subscribe, try_except, bind, log, emit, client_start_notify, outside.
  cbn [mug calls trace tasks].
  destruct (env_start_notify env STATE_UUID (calls w1)) as [[] | e].
  - rewrite <- !app_assoc. reflexivity.
  - destruct (is_BleakError e); cbn; rewrite <- !app_assoc; reflexivity.
Qed.

Lemma connect_subscribes_after_success_witness :
  fst (connect healthy 1 (init true)) = Returned tt.
Proof.
  assert (connect_attempts healthy (range 1 (10 + 1)) false (init true) =
          (Returned true,
           snd (connect_attempts healthy (range 1 (10 + 1)) false
                  (init true))))
    as H by (vm_compute; reflexivity).
  rewrite (connect_subscribes_after_success healthy 0 (init true) _ H).
  reflexivity.
Defined.

(** X12: only transport errors are retried.  When [client.connect()]
    raises anything that is not a [BleakError], [connect] raises it at once:
    the burst stops at that attempt, nothing is logged and the callback is
    not invoked. *)
Theorem connect_does_not_retry_other_exceptions :
  forall (env : Env) (fuel : nat) (w : World) (e : exn),
    env_connect env (calls w) = Err e ->
    is_BleakError e = false ->
    connect env (S fuel) w =
    (Raised e, called (Awaited BleakClient.connect) w).
Proof.
  intros env fuel w e H He.
  rewrite connect_S, range_1_11. cbn [connect_attempts].
  unfold bind, connect_attempt, try_except, bind, client_connect, outside.
  rewrite H, He. reflexivity.
Qed.

Lemma connect_does_not_retry_other_exceptions_witness :
  connect broken_stack 1 (init true) =
  (Raised OtherException, called (Awaited BleakClient.connect) (init true)).
Proof.
  apply (connect_does_not_retry_other_exceptions broken_stack 0 (init true)
           OtherException eq_refl eq_refl).
Defined.

(** X13: [disconnect] clears [_loop], asks the client to stop notifying,
    asks whether it is connected and disconnects only if it says so;
    transport errors of any of the three calls are swallowed, so it returns
    normally, and it changes nothing else of the object. *)
Theorem disconnect_swallows_transport_errors :
  forall (env : Env) (w : World),
    transport_only (env_stop_notify env STATE_UUID (calls w)) ->
    transport_only (env_is_connected env (S (calls w))) ->
    transport_only (env_disconnect env (S (S (calls w)))) ->
    let connected :=
      match env_is_connected env (S (calls w)) with
      | Ok true => true
      | _ => false
      end in
    disconnect env w =
    (Returned tt,
     {| mug := set__loop false (mug w);
        calls := (if connected then 3 else 2) + calls w;
        trace := trace w ++
                 [Awaited (BleakClient.stop_notify STATE_UUID);
                  Awaited BleakClient.is_connected] ++
                 (if connected then [Awaited BleakClient.disconnect] else []);
        tasks := tasks w |}).
Proof.
  intros env w Hs Hi Hd connected. subst connected.
  unfold disconnect, bind, modify_mug, try_except, client_stop_notify,
    client_is_connected, client_disconnect, outside.
  cbn [mug calls trace tasks].
  destruct (env_stop_notify env STATE_UUID (calls w)) as [[] | e1];
    [| cbn in Hs; rewrite Hs]; cbn [mug calls trace tasks ret].
  all: destruct (env_is_connected env (S (calls w))) as [[|] | e2];
    [| | cbn in Hi; rewrite Hi]; cbn [mug calls trace tasks ret].
  all: try (rewrite <- !app_assoc; reflexivity).
  all: destruct (env_disconnect env (S (S (calls w)))) as [[] | e3];
    [| cbn in Hd; rewrite Hd]; cbn [mug calls trace tasks ret];
    rewrite <- !app_assoc; reflexivity.
Qed.

Lemma disconnect_swallows_transport_errors_witness :
  disconnect out_of_range (init true) =
  (Returned tt,
   {| mug := set__loop false (mug (init true));
      calls := 2;
      trace := trace (init true) ++
               [Awaited (BleakClient.stop_notify STATE_UUID);
                Awaited BleakClient.is_connected];
      tasks := 1 |}).
Proof.
  exact (disconnect_swallows_transport_errors out_of_range (init true)
           eq_refl I eq_refl).
Defined.

Lemma disconnect_clears_loop (env : Env) (w : World) :
  _loop (mug (snd (disconnect env w))) = false.
Proof.
  unfold disconnect, bind at 1, modify_mug.
  set (w0 := {| mug := set__loop false (mug w); calls := calls w;
                trace := trace w; tasks := tasks w |}).
  assert (respects same_loop_and_tasks
            (try_except (client_stop_notify env STATE_UUID)
               (fun e => if is_BleakError e then Some (ret tt) else None) ;;
             try_except
               (is_conn <- client_is_connected env ;;
                if is_conn then client_disconnect env else ret tt)
               (fun e => if is_BleakError e then Some (ret tt) else None)))
    as H.
  { pose proof same_loop_and_tasks_refl as Hr.
    pose proof same_loop_and_tasks_trans as Ht.
    pose proof same_loop_and_tasks_outside as Ho.
    apply respects_bind; [exact Ht | | intros _].
    - apply respects_try_except; [exact Ht | apply Ho |].
      intros e h E. destruct (is_BleakError e); inversion E.
      apply respects_ret. exact Hr.
    - apply respects_try_except; [exact Ht | |].
      + apply respects_bind; [exact Ht | apply Ho | intros b].
        destruct b; [apply Ho | apply respects_ret; exact Hr].
      + intros e h E. destruct (is_BleakError e); inversion E.
        apply respects_ret. exact Hr. }
  destruct (H w0) as [Hl _]. rewrite Hl. reflexivity.
Qed.

(** X14: after [disconnect], however it ended, the loop condition is
    false: a session loop that comes to its next check stops there without
    touching the client.  A session-loop task that starts after the
    [disconnect] sets [_loop] again and polls all the same. *)
Theorem loop_stops_after_disconnect :
  forall (env : Env) (fuel n : nat) (w : World),
    let wd := snd (disconnect env w) in
    while_loop env fuel (S n) wd = (Returned tt, wd) /\
    exists l,
      trace (snd (async_run env (S fuel) wd)) =
      trace wd ++ [Logged INFO Starting_mug_loop;
                   Awaited BleakClient.is_connected] ++ l.
Proof.
  intros env fuel n w wd. split.
  - rewrite while_loop_S. unfold bind, get_mug.
    unfold wd. rewrite disconnect_clears_loop. reflexivity.
  - apply async_run_first_call.
Qed.

Lemma byte_int_byte_of_Z (k : Z) :
  0 <= k < 256 -> byte_int (Py.byte_of_Z k) = k.
Proof.
  intros Hk. unfold byte_int, Py.byte_of_Z.
  destruct (Byte.of_N (Z.to_N k)) as [b |] eqn:E.
  - apply Byte.to_of_N in E. rewrite E. lia.
  - apply Byte.of_N_None_iff in E. lia.
Qed.

Lemma to_bytes_2_little_inv (n : Z) (bs : list byte) :
  Py.to_bytes_2_little n = Ok bs ->
  0 <= n <= 65535 /\
  exists lo hi,
    bs = [lo; hi] /\ byte_int lo + 256 * byte_int hi = n.
Proof.
  unfold Py.to_bytes_2_little.
  destruct (n <? 0) eqn:E1; [discriminate |].
  destruct (65535 <? n) eqn:E2; [discriminate |].
  apply Z.ltb_ge in E1. apply Z.ltb_ge in E2.
  cbn [orb]. intros H. inversion H; subst; clear H.
  split; [lia |].
  eexists. eexists. split; [reflexivity |].
  rewrite !byte_int_byte_of_Z.
  - pose proof (Z.div_mod n 256). lia.
  - split; [apply Z.div_pos; lia | apply Z.div_lt_upper_bound; lia].
  - apply Z.mod_pos_bound. lia.
Qed.

(** X15: [set_target_temp] writes to the target-temperature characteristic
    exactly two bytes, without asking for a response: the little-endian
    count [int(temp / 0.01)], which is then between 0 and 65535.  When the
    count cannot be encoded the exception is raised before the client is
    touched.  A transport error of the write is not caught. *)
Theorem set_target_temp_writes_two_bytes :
  forall (env : Env) (temp : float) (w : World),
    match target_of_temp temp with
    | Ok bs =>
        (exists lo hi,
           bs = [lo; hi] /\
           Py.int_of_float (PrimFloat.div temp f_0_01) =
             Ok (byte_int lo + 256 * byte_int hi)) /\
        set_target_temp env temp w =
        (match env_write_gatt_char env TARGET_TEMP_UUID bs false (calls w) with
         | Ok _ => Returned tt
         | Err e => Raised e
         end,
         {| mug := mug w;
            calls := S (calls w);
            trace := trace w ++
                     [Logged DEBUG (Set_to temp);
                      Awaited (BleakClient.write_gatt_char
                                 TARGET_TEMP_UUID bs false)] ++
                     match env_write_gatt_char env TARGET_TEMP_UUID bs false
                             (calls w) with
                     | Ok _ => [Logged DEBUG Resp]
                     | Err _ => []
                     end;
            tasks := tasks w |})
    | Err e =>
        set_target_temp env temp w =
        (Raised e,
         {| mug := mug w;
            calls := calls w;
            trace := trace w ++ [Logged DEBUG (Set_to temp)];
            tasks := tasks w |})
    end.
Proof.
  intros env temp w.
  destruct (target_of_temp temp) as [bs | e] eqn:E.
  - split.
    + unfold target_of_temp in E.
      destruct (Py.int_of_float (PrimFloat.div temp f_0_01)) as [n | e];
        [| discriminate].
      destruct (to_bytes_2_little_inv n bs E) as (_ & lo & hi & Hbs & Hn).
      exists lo, hi. split; [exact Hbs | now rewrite Hn].
    + unfold set_target_temp, bind, log, emit, lift,
        client_write_gatt_char, outside.
      rewrite E. cbn [ret mug calls trace tasks].
      destruct (env_write_gatt_char env TARGET_TEMP_UUID bs false (calls w))
        as [[] | e]; cbn [mug calls trace tasks];
        rewrite <- !app_assoc; reflexivity.
  - unfold set_target_temp, bind, log, emit, lift. rewrite E. reflexivity.
Qed.

Lemma zero_reading :
  Py.float_of_int (Py.int_from_bytes_little []) = Ok 0%float /\
  temp_of_raw true 0 = 0%float /\
  temp_of_raw false 0 = 0x1p+5%float.
Proof.
  repeat split; vm_compute; reflexivity.
Qed.

(** X16: an empty temperature payload is not an error: it is read as raw
    count 0, so [update_current_temp] and [update_target_temp] store 0.0 on
    an object configured for Celsius and 32.0 on one configured for
    Fahrenheit, and return normally. *)
Theorem empty_temperature_payload_reads_zero :
  forall (env : Env) (w : World),
    let t0 := if use_metric (mug w) then 0%float else 0x1p+5%float in
    (env_read_gatt_char env CURRENT_TEMP_UUID (calls w) = Ok [] ->
     update_current_temp env w =
     (Returned tt,
      {| mug := set_current_temp (Some t0) (mug w);
         calls := S (calls w);
         trace := trace w ++
                  [Awaited (BleakClient.read_gatt_char CURRENT_TEMP_UUID);
                   Logged DEBUG (Current_temp t0)];
         tasks := tasks w |})) /\
    (env_read_gatt_char env TARGET_TEMP_UUID (calls w) = Ok [] ->
     update_target_temp env w =
     (Returned tt,
      {| mug := set_target_temp_attr (Some t0) (mug w);
         calls := S (calls w);
         trace := trace w ++
                  [Awaited (BleakClient.read_gatt_char TARGET_TEMP_UUID);
                   Logged DEBUG (Target_temp t0)];
         tasks := tasks w |})).
Proof.
  intros env w t0. subst t0.
  destruct zero_reading as (Hz & Hc & Hf).
  split; intros H.
  - unfold update_current_temp, bind, client_read_gatt_char, outside,
      _temp_from_bytes, bind, get_mug, lift.
    rewrite H, Hz. cbn [ret mug calls trace tasks].
    unfold modify_mug, log, emit. cbn [mug calls trace tasks].
    destruct (use_metric (mug w)); rewrite ?Hc, ?Hf, <- app_assoc;
      reflexivity.
  - unfold update_target_temp, bind, client_read_gatt_char, outside,
      _temp_from_bytes, bind, get_mug, lift.
    rewrite H, Hz. cbn [ret mug calls trace tasks].
    unfold modify_mug, log, emit. cbn [mug calls trace tasks].
    destruct (use_metric (mug w)); rewrite ?Hc, ?Hf, <- app_assoc;
      reflexivity.
Qed.

Lemma empty_temperature_payload_reads_zero_witness :
  current_temp
    (mug (snd (update_current_temp
                 (with_read healthy (fun _ => true) (Ok [])) (init false)))) =
  Some 0x1p+5%float.
Proof.
  rewrite (proj1 (empty_temperature_payload_reads_zero
                    (with_read healthy (fun _ => true) (Ok [])) (init false))
             eq_refl).
  reflexivity.
Defined.

Ltac same_but_solve :=
  unfold same_but; cbn;
  repeat split; try reflexivity; try (intros Hne; congruence).

Lemma update__only_its_attribute (env : Env) (a : attr) (w : World) :
  same_but a (mug w) (mug (snd (update_ env a w))) /\
  (fst (update_ env a w) = Returned tt ->
   is_read a (mug (snd (update_ env a w)))).
Proof.
  destruct a; cbn [update_];
    unfold update_led_colour, update_current_temp, update_target_temp,
      update_battery, _temp_from_bytes, bind, client_read_gatt_char,
      outside, get_mug, lift.
  - destruct (env_read_gatt_char env LED_COLOUR_UUID (calls w))
      as [payload | e]; [| split; [same_but_solve | discriminate]].
    destruct payload as [|r [|g [|b [|a [|x rest]]]]];
      try (split; [same_but_solve | discriminate]).
    split; [same_but_solve |].
    intros _. exists r, g, b. reflexivity.
  - destruct (env_read_gatt_char env CURRENT_TEMP_UUID (calls w))
      as [payload | e]; [| split; [same_but_solve | discriminate]].
    destruct (Py.float_of_int (Py.int_from_bytes_little payload))
      as [raw | e]; [| split; [same_but_solve | discriminate]].
    split; [same_but_solve | cbn; discriminate].
  - destruct (env_read_gatt_char env TARGET_TEMP_UUID (calls w))
      as [payload | e]; [| split; [same_but_solve | discriminate]].
    destruct (Py.float_of_int (Py.int_from_bytes_little payload))
      as [raw | e]; [| split; [same_but_solve | discriminate]].
    split; [same_but_solve | cbn; discriminate].
  - destruct (env_read_gatt_char env BATTERY_UUID (calls w))
      as [payload | e]; [| split; [same_but_solve | discriminate]].
    destruct payload as [| b0 rest];
      [split; [same_but_solve | discriminate] |].
    destruct (Py.float_of_int (byte_int b0)) as [raw | e];
      [| split; [same_but_solve | discriminate]].
    split; [same_but_solve | cbn; discriminate].
Qed.

(** X17: each [update_] method touches only its own attribute, whether it
    returns or raises; when it returns, that attribute holds a reading (a
    colour of three byte values, or a number). *)
Theorem update_touches_only_its_attribute :
  forall (env : Env) (a : attr) (w : World),
    same_but a (mug w) (mug (snd (update_ env a w))) /\
    (fst (update_ env a w) = Returned tt ->
     is_read a (mug (snd (update_ env a w)))).
Proof.
  exact update__only_its_attribute.
Qed.

(** X18: after a poll cycle that reported success no reading is unknown:
    the colour is three byte values and the two temperatures and the
    battery level are numbers. *)
Theorem successful_poll_reads_everything :
  forall (env : Env) (fuel : nat) (w w1 : World),
    update_all env fuel w = (Returned true, w1) ->
    is_rgb (led_colour_rgb (mug w1)) /\
    current_temp (mug w1) <> None /\
    target_temp (mug w1) <> None /\
    battery (mug w1) <> None.
Proof.
  intros env fuel w w1.
  unfold update_all, try_except, bind at 1.
  destruct (connect_if_needed env fuel w) as [[[] | e |] w0];
    [| destruct (is_BleakError e); cbn; discriminate | discriminate].
  cbn [update_attrs for_each]. unfold bind.
  pose proof (update__only_its_attribute env led_colour w0) as [F1 R1].
  destruct (update_ env led_colour w0) as [[[] | e |] wa];
    [| destruct (is_BleakError e); cbn; discriminate | discriminate].
  pose proof (update__only_its_attribute env current_temp_ wa) as [F2 R2].
  destruct (update_ env current_temp_ wa) as [[[] | e |] wb];
    [| destruct (is_BleakError e); cbn; discriminate | discriminate].
  pose proof (update__only_its_attribute env target_temp_ wb) as [F3 R3].
  destruct (update_ env target_temp_ wb) as [[[] | e |] wc];
    [| destruct (is_BleakError e); cbn; discriminate | discriminate].
  pose proof (update__only_its_attribute env battery_ wc) as [F4 R4].
  destruct (update_ env battery_ wc) as [[[] | e |] wd];
    [| destruct (is_BleakError e); cbn; discriminate | discriminate].
  cbn. intros H. inversion H; subst; clear H.
  cbn in *.
  specialize (R1 eq_refl). specialize (R2 eq_refl).
  specialize (R3 eq_refl). specialize (R4 eq_refl).
  unfold same_but in *.
  destruct F2 as (_ & _ & _ & _ & _ & L2 & _ & _ & _).
  destruct F3 as (_ & _ & _ & _ & _ & L3 & C3 & _ & _).
  destruct F4 as (_ & _ & _ & _ & _ & L4 & C4 & T4 & _).
  repeat split.
  - rewrite L4, L3, L2 by discriminate. exact R1.
  - rewrite C4, C3 by discriminate. exact R2.
  - rewrite T4 by discriminate. exact R3.
  - exact R4.
Qed.

Lemma successful_poll_reads_everything_witness :
  is_rgb (led_colour_rgb (mug (snd (update_all healthy 1 (init true))))) /\
  current_temp (mug (snd (update_all healthy 1 (init true)))) <> None /\
  target_temp (mug (snd (update_all healthy 1 (init true)))) <> None /\
  battery (mug (snd (update_all healthy 1 (init true)))) <> None.
Proof.
  apply (successful_poll_reads_everything healthy 1 (init true)).
  vm_compute. reflexivity.
Defined.

(** X19: connecting changes no attribute of the object: whatever happens
    during [connect], the connection check or the dwell, the readings, the
    status and the flags are what they were, so readings taken before a
    connection loss are still there after the reconnection. *)
Theorem connecting_changes_no_attribute :
  forall (env : Env) (fuel : nat) (w : World),
    mug (snd (connect env fuel w)) = mug w /\
    mug (snd (connect_if_needed env fuel w)) = mug w /\
    mug (snd (dwell env w)) = mug w.
Proof.
  intros env fuel w.
  assert (forall v : World, mug v = mug v) as Hr by reflexivity.
  assert (forall w1 w2 w3 : World,
            mug w2 = mug w1 -> mug w3 = mug w2 -> mug w3 = mug w1) as Ht
    by (intros; congruence).
  assert (forall e, respects (fun v v' => mug v' = mug v) (emit e)) as He
    by (intros e v; reflexivity).
  assert (forall A e (answer : nat -> reply A),
            respects (fun v v' => mug v' = mug v) (outside e answer)) as Ho.
  { intros A e answer v. unfold outside.
    destruct (answer (calls v)); reflexivity. }
  split; [| split].
  - apply (respects_connect (fun v v' => mug v' = mug v) Hr Ht He Ho).
  - apply (respects_connect_if_needed (fun v v' => mug v' = mug v)
             Hr Ht He Ho).
  - apply (respects_dwell (fun v v' => mug v' = mug v) Hr Ht He Ho).
Qed.

Section Subscriptions.

Variable env : Env.

Lemma grew_refl w : grew w w 0 0.
Proof.
  exists []. repeat split. symmetry. apply app_nil_r.
Qed.

Lemma grew_trans w1 w2 w3 n1 k1 n2 k2 :
  grew w1 w2 n1 k1 -> grew w2 w3 n2 k2 -> grew w1 w3 (n1 + n2) (k1 + k2).
Proof.
  intros (l1 & H1 & Hn1 & Hk1) (l2 & H2 & Hn2 & Hk2).
  exists (l1 ++ l2). rewrite H2, H1, !count_app, Hn1, Hn2, Hk1, Hk2.
  repeat split. symmetry. apply app_assoc.
Qed.

Lemma connect_attempt_grew connected i w :
  grew w (snd (connect_attempt env connected i w)) 0 0.
Proof.
  unfold connect_attempt, try_except, bind, client_connect, client_pair,
    outside, log, sleep_not_awaited, emit.
  cbn [calls].
  destruct (env_connect env (calls w)) as [[] | e]; cbn.
  - destruct (env_pair env (S (calls w))) as [[] | e]; cbn.
    + eexists. rewrite <- !app_assoc. repeat split.
    + destruct (is_BleakError e); cbn;
        eexists; rewrite <- ?app_assoc; repeat split.
  - destruct (is_BleakError e); cbn;
      eexists; rewrite <- ?app_assoc; repeat split.
Qed.

Lemma connect_attempts_grew indices connected w :
  grew w (snd (connect_attempts env indices connected w)) 0 0.
Proof.
  revert connected w.
  induction indices as [| i rest IH]; intros connected w; cbn.
  - apply grew_refl.
  - unfold bind.
    pose proof (connect_attempt_grew connected i w) as H.
    destruct (connect_attempt env connected i w) as [[b | e |] w1];
      cbn in *; try exact H.
    apply (grew_trans w w1 _ 0 0 0 0 H). apply IH.
Qed.

Lemma subscribe_grew w :
  fst (subscribe env w) = Returned tt /\
  grew w (snd (subscribe env w)) 1 0.
Proof.
  unfold subscribe, try_except, bind, log, emit, client_start_notify,
    outside.
  cbn [mug calls trace tasks].
  destruct (env_start_notify env STATE_UUID (calls w)) as [[] | e].
  - split; [reflexivity |].
    eexists. cbn. rewrite <- !app_assoc. repeat split.
  - destruct (is_BleakError e); cbn; (split; [reflexivity |]);
      eexists; rewrite <- !app_assoc; repeat split.
Qed.

Lemma backed_off_grew w : grew w (backed_off w) 0 1.
Proof.
  eexists. repeat split.
Qed.

(** [connect] by cases on how the burst and the callback went. *)
Lemma connect_by_cases fuel w :
  connect env (S fuel) w =
  match connect_attempts env (range 1 (10 + 1)) false w with
  | (Returned true, w1) => subscribe env w1
  | (Returned false, w1) =>
      match env_update_callback env (calls w1) with
      | Ok _ =>
          match connect env fuel (backed_off w1) with
          | (Returned _, w3) => subscribe env w3
          | (Raised e, w3) => (Raised e, w3)
          | (OutOfFuel, w3) => (OutOfFuel, w3)
          end
      | Err e => (Raised e, called Callback w1)
      end
  | (Raised e, w1) => (Raised e, w1)
  | (OutOfFuel, w1) => (OutOfFuel, w1)
  end.
Proof.
  rewrite connect_S. unfold bind at 1.
  destruct (connect_attempts env (range 1 (10 + 1)) false w)
    as [[[|] | e |] w1]; try reflexivity.
  cbn [negb]. unfold bind, async_update_callback, outside, log, await_sleep,
    emit, backed_off, called.
  cbn [mug calls trace tasks].
  destruct (env_update_callback env (calls w1)) as [[] | e];
    [| reflexivity].
  cbn [mug calls trace tasks]. rewrite <- !app_assoc. cbn [app].
  destruct (connect env fuel _) as [[[] | e |] w3]; reflexivity.
Qed.

Lemma connect_returns_grew fuel w :
  fst (connect env fuel w) = Returned tt ->
  exists k, grew w (snd (connect env fuel w)) (S k) k.
Proof.
  revert w. induction fuel as [| fuel IH]; intros w; [discriminate |].
  rewrite connect_by_cases.
  pose proof (connect_attempts_grew (range 1 (10 + 1)) false w) as Ha.
  destruct (connect_attempts env (range 1 (10 + 1)) false w)
    as [[[|] | e |] w1]; cbn [fst snd] in *; try discriminate.
  - intros _. exists 0%nat.
    apply (grew_trans w w1 _ 0 0 1 0 Ha). apply subscribe_grew.
  - destruct (env_update_callback env (calls w1)) as [[] | e];
      [| discriminate].
    specialize (IH (backed_off w1)).
    destruct (connect env fuel (backed_off w1)) as [[[] | e |] w3];
      cbn [fst snd] in *; try discriminate.
    intros _. destruct (IH eq_refl) as [k Hk].
    exists (S k).
    pose proof (proj2 (subscribe_grew w3)) as Hs.
    pose proof (grew_trans _ _ _ _ _ _ _
                  (grew_trans _ _ _ _ _ _ _
                     (grew_trans _ _ _ _ _ _ _ Ha (backed_off_grew w1)) Hk)
                  Hs) as H.
    cbn in H. replace (k + 1)%nat with (S k) in H by lia.
    replace (k + 0)%nat with k in H by lia.
    exact H.
Qed.

End Subscriptions.

(** X20: every call of [connect] that returns has subscribed to the state
    notifications once more than it has backed off for five minutes: after a
    failed burst the recursive call subscribes, and when it returns the
    calling one subscribes again.  So a connection that took [k] failed
    bursts calls [start_notify] [k + 1] times. *)
Theorem connect_subscribes_once_per_nesting :
  forall (env : Env) (fuel : nat) (w : World),
    fst (connect env fuel w) = Returned tt ->
    exists k l,
      trace (snd (connect env fuel w)) = trace w ++ l /\
      count (is_Slept 300) l = k /\
      count is_start_notify l = S k.
Proof.
  intros env fuel w H.
  destruct (connect_returns_grew env fuel w H) as (k & l & Hl & Hn & Hk).
  exists k, l. repeat split; assumption.
Qed.

Lemma connect_subscribes_once_per_nesting_witness :
  exists k l,
    trace (snd (connect (in_range_after 10) 2 (init true))) =
      trace (init true) ++ l /\
    count (is_Slept 300) l = k /\
    count is_start_notify l = S k.
Proof.
  apply (connect_subscribes_once_per_nesting (in_range_after 10) 2
           (init true)).
  vm_compute. reflexivity.
Defined.

(** X21: one pass of the session loop on a working connection is the
    connection check, the poll cycle, the callback and the dwell, in this
    order, and nothing else: whatever the poll reported, the pass returns
    after 15 more connection checks and 30 seconds of sleep. *)
Theorem loop_pass_is_poll_callback_dwell :
  forall (env : Env) (fuel : nat) (w w0 w1 : World) (success : bool),
    connect_if_needed env fuel w = (Returned tt, w0) ->
    update_all env fuel w0 = (Returned success, w1) ->
    env_update_callback env (calls w1) = Ok tt ->
    (forall n, exists b, env_is_connected env n = Ok b) ->
    loop_body env fuel w =
    (Returned tt,
     {| mug := mug w1;
        calls := 16 + calls w1;
        trace := trace w1 ++ [Callback] ++ dwell_slices;
        tasks := tasks w1 |}).
Proof.
  intros env fuel w w0 w1 success Hc Hu Hcb Hok.
  unfold loop_body, bind at 1. rewrite Hc.
  unfold bind at 1. rewrite Hu.
  unfold bind at 1, async_update_callback, outside. rewrite Hcb.
  unfold dwell. rewrite (dwell_for_each env (range 0 15) _ Hok).
  cbn [mug calls trace tasks]. rewrite <- app_assoc. reflexivity.
Qed.

Lemma loop_pass_is_poll_callback_dwell_witness :
  fst (loop_body target_read_fails 1 (init true)) = Returned tt /\
  calls (snd (loop_body target_read_fails 1 (init true))) = 21%nat.
Proof.
  rewrite (loop_pass_is_poll_callback_dwell target_read_fails 1 (init true)
             (snd (connect_if_needed target_read_fails 1 (init true)))
             (snd (update_all target_read_fails 1
                     (snd (connect_if_needed target_read_fails 1
                             (init true)))))
             false eq_refl eq_refl eq_refl
             (fun n => ex_intro _ true eq_refl)).
  split; reflexivity.
Defined.

Section Unreachable.

Variable env : Env.
Hypothesis connect_fails : forall n, env_connect env n = Err BleakError.
Hypothesis callback_returns : forall n, env_update_callback env n = Ok tt.

Lemma connect_attempts_all_fail indices connected w :
  fst (connect_attempts env indices connected w) = Returned connected.
Proof.
  revert w. induction indices as [| i rest IH]; intros w; [reflexivity |].
  cbn [connect_attempts]. unfold bind at 1.
  unfold connect_attempt, try_except, bind, client_connect, outside.
  rewrite connect_fails. cbn. apply IH.
Qed.

(** As far as the recursion is followed, [connect] has not come back. *)
Lemma connect_still_inside fuel w :
  fst (connect env fuel w) = OutOfFuel.
Proof.
  revert w. induction fuel as [| fuel IH]; intros w; [reflexivity |].
  rewrite connect_by_cases.
  pose proof (connect_attempts_all_fail (range 1 (10 + 1)) false w) as Ha.
  destruct (connect_attempts env (range 1 (10 + 1)) false w) as [r w1].
  cbn [fst] in Ha. subst r. rewrite callback_returns.
  specialize (IH (backed_off w1)).
  destruct (connect env fuel (backed_off w1)) as [r w3].
  cbn [fst] in IH. subst r. reflexivity.
Qed.

End Unreachable.

(** X22: while every connection attempt fails with a transport error (and
    the callback returns), no call of [connect] returns; so a poll cycle
    started on a client that says it is not connected reports nothing,
    neither success nor failure: the failed attempts are not a failed
    poll. *)
Theorem unreachable_mug_poll_reports_nothing :
  forall (env : Env) (fuel : nat) (w : World),
    (forall n, env_connect env n = Err BleakError) ->
    (forall n, env_update_callback env n = Ok tt) ->
    env_is_connected env (calls w) = Ok false ->
    fst (connect env fuel w) <> Returned tt /\
    forall success, fst (update_all env fuel w) <> Returned success.
Proof.
  intros env fuel w Hc Hcb Hi. split.
  - rewrite (connect_still_inside env Hc Hcb fuel w). discriminate.
  - intros success.
    unfold update_all, try_except, bind at 1.
    assert (fst (connect_if_needed env fuel w) = OutOfFuel) as H.
    { unfold connect_if_needed, bind, client_is_connected, outside.
      rewrite Hi. cbn [negb].
      apply (connect_still_inside env Hc Hcb fuel). }
    destruct (connect_if_needed env fuel w) as [r w0].
    cbn [fst] in H. subst r. discriminate.
Qed.

Lemma unreachable_mug_poll_reports_nothing_witness :
  fst (update_all out_of_range 3 (init true)) <> Returned false.
Proof.
  apply (unreachable_mug_poll_reports_nothing out_of_range 3 (init true)).
  - intros n. reflexivity.
  - intros n. reflexivity.
  - reflexivity.
Defined.

(* ------------------------------------------------------------------ *)
(** ** The discovery utility *)

Section DiscoveryFacts.

Import Discovery.

Variable radio : Radio.

Lemma scan_loop_S fuel :
  scan_loop radio (S fuel) =
  Discovery.bind (print_no_newline ".") (fun _ =>
  Discovery.bind (ask Discover (discover radio)) (fun devices =>
  Discovery.bind (probe_all radio devices) (fun _ =>
  scan_loop radio fuel))).
Proof. reflexivity. Qed.

Lemma scan_loop_does_not_return fuel s :
  fst (scan_loop radio fuel s) <> Returned tt.
Proof.
  revert s. induction fuel as [| fuel IH]; intros s; [discriminate |].
  rewrite scan_loop_S. unfold Discovery.bind, print_no_newline, say, ask.
  cbn [asked seen].
  destruct (discover radio (asked s)) as [devices | e]; [| discriminate].
  destruct (probe_all radio devices _) as [[[] | e |] s1];
    try discriminate.
  apply IH.
Qed.

Lemma probe_all_skips devices s :
  (forall d, In d devices -> is_mug d = false) ->
  probe_all radio devices s = (Returned tt, s).
Proof.
  revert s. induction devices as [| d rest IH]; intros s H; [reflexivity |].
  cbn [probe_all]. unfold Discovery.bind, probe.
  rewrite (H d (or_introl eq_refl)). cbn.
  apply IH. intros d' Hd. apply H. right. exact Hd.
Qed.

Lemma probe_returns d s :
  (forall dd n, aenter radio dd n = Ok tt) ->
  (forall n, exists b, is_connected radio n = Ok b) ->
  (forall n, exists b, pair radio n = Ok b) ->
  (forall n, aexit radio n = Ok tt) ->
  fst (probe radio d s) = Returned tt.
Proof.
  intros He Hi Hp Hx. unfold probe.
  destruct (is_mug d); [| reflexivity].
  unfold Discovery.bind, print, say, async_with, ask.
  cbn [asked seen]. rewrite He. cbn [asked seen].
  destruct (Hi (S (asked s))) as [x Hx']. rewrite Hx'. cbn [asked seen].
  destruct (Hp (S (S (asked s)))) as [y Hy]. rewrite Hy. cbn [asked seen].
  rewrite Hx. reflexivity.
Qed.

Lemma probe_all_returns devices s :
  (forall dd n, aenter radio dd n = Ok tt) ->
  (forall n, exists b, is_connected radio n = Ok b) ->
  (forall n, exists b, pair radio n = Ok b) ->
  (forall n, aexit radio n = Ok tt) ->
  fst (probe_all radio devices s) = Returned tt.
Proof.
  intros He Hi Hp Hx. revert s.
  induction devices as [| d rest IH]; intros s; [reflexivity |].
  cbn [probe_all]. unfold Discovery.bind.
  pose proof (probe_returns d s He Hi Hp Hx) as H.
  destruct (probe radio d s) as [r s1]. cbn [fst] in H. subst r.
  apply IH.
Qed.

Lemma scan_loop_runs_on fuel s :
  (forall n, exists ds, discover radio n = Ok ds) ->
  (forall dd n, aenter radio dd n = Ok tt) ->
  (forall n, exists b, is_connected radio n = Ok b) ->
  (forall n, exists b, pair radio n = Ok b) ->
  (forall n, aexit radio n = Ok tt) ->
  fst (scan_loop radio fuel s) = OutOfFuel.
Proof.
  intros Hd He Hi Hp Hx. revert s.
  induction fuel as [| fuel IH]; intros s; [reflexivity |].
  rewrite scan_loop_S. unfold Discovery.bind, print_no_newline, say, ask.
  cbn [asked seen].
  destruct (Hd (asked s)) as [ds Hds]. rewrite Hds.
  pose proof (probe_all_returns ds
                {| asked := S (asked s);
                   seen := (seen s ++ [Print "." ""]) ++ [Discover] |}
                He Hi Hp Hx) as H.
  destruct (probe_all radio ds _) as [r s1]. cbn [fst] in H. subst r.
  apply IH.
Qed.

Lemma find_mugs_by_cases fuel s :
  find_mugs radio fuel s =
  match scan_loop radio fuel
          {| asked := asked s; seen := seen s ++ [Print "Searching.." ""] |}
  with
  | (Raised e, s') =>
      (Returned tt, {| asked := asked s'; seen := seen s' ++ [PrintError e] |})
  | r => r
  end.
Proof.
  unfold find_mugs, Discovery.bind, print_no_newline, say.
  cbn [asked seen].
  destruct (scan_loop radio fuel _) as [[[] | e |] s1]; reflexivity.
Qed.

End DiscoveryFacts.

(** X23: [find_mugs] never raises: any exception of the scan or of a probe
    is caught and printed, and that is the only way it ends, the last thing
    it printed being the error. *)
Theorem find_mugs_ends_only_by_error :
  forall (radio : Discovery.Radio) (fuel : nat) (s : Discovery.Console),
    match fst (Discovery.find_mugs radio fuel s) with
    | Returned _ =>
        exists t e,
          Discovery.seen (snd (Discovery.find_mugs radio fuel s)) =
          t ++ [Discovery.PrintError e]
    | Raised _ => False
    | OutOfFuel => True
    end.
Proof.
  intros radio fuel s. rewrite find_mugs_by_cases.
  pose proof (scan_loop_does_not_return radio fuel
                {| Discovery.asked := Discovery.asked s;
                   Discovery.seen :=
                     Discovery.seen s ++
                     [Discovery.Print "Searching.." ""] |}) as H.
  destruct (Discovery.scan_loop radio fuel _) as [[[] | e |] s1]; cbn in *.
  - exfalso. apply H. reflexivity.
  - exists (Discovery.seen s1), e. reflexivity.
  - exact I.
Qed.

(** X24: only devices named exactly [Ember Ceramic Mug] are probed: a scan
    that finds no such device prints nothing about them and makes no
    request to the radio. *)
Theorem find_mugs_skips_other_devices :
  forall (radio : Discovery.Radio) (devices : list Discovery.device)
         (s : Discovery.Console),
    (forall d, In d devices -> Discovery.name d <> Some Discovery.mug_name) ->
    Discovery.probe_all radio devices s = (Returned tt, s).
Proof.
  intros radio devices s H.
  apply probe_all_skips. intros d Hd.
  unfold Discovery.is_mug. specialize (H d Hd).
  destruct (Discovery.name d) as [n |]; [| reflexivity].
  apply String.eqb_neq. congruence.
Qed.

Lemma find_mugs_skips_other_devices_witness :
  Discovery.probe_all (Discovery.steady_radio [Discovery.a_speaker])
    [Discovery.a_speaker] Discovery.start =
  (Returned tt, Discovery.start).
Proof.
  apply find_mugs_skips_other_devices.
  intros d [Hd | []]. subst d. discriminate.
Defined.

(** X25: finding a mug does not end the search: as long as the radio does
    not fail, [find_mugs] keeps scanning and never returns, whatever devices
    the scans find. *)
Theorem find_mugs_keeps_scanning :
  forall (radio : Discovery.Radio) (fuel : nat) (s : Discovery.Console),
    (forall n, exists ds, Discovery.discover radio n = Ok ds) ->
    (forall dd n, Discovery.aenter radio dd n = Ok tt) ->
    (forall n, exists b, Discovery.is_connected radio n = Ok b) ->
    (forall n, exists b, Discovery.pair radio n = Ok b) ->
    (forall n, Discovery.aexit radio n = Ok tt) ->
    fst (Discovery.find_mugs radio fuel s) = OutOfFuel.
Proof.
  intros radio fuel s Hd He Hi Hp Hx. rewrite find_mugs_by_cases.
  pose proof (scan_loop_runs_on radio fuel
                {| Discovery.asked := Discovery.asked s;
                   Discovery.seen :=
                     Discovery.seen s ++
                     [Discovery.Print "Searching.." ""] |}
                Hd He Hi Hp Hx) as H.
  destruct (Discovery.scan_loop radio fuel _) as [r s1].
  cbn [fst] in H. subst r. reflexivity.
Qed.

Lemma find_mugs_keeps_scanning_witness :
  fst (Discovery.find_mugs (Discovery.steady_radio [Discovery.a_mug]) 3
         Discovery.start) = OutOfFuel.
Proof.
  apply find_mugs_keeps_scanning.
  - intros n. exists [Discovery.a_mug]. reflexivity.
  - intros dd n. reflexivity.
  - intros n. exists true. reflexivity.
  - intros n. exists true. reflexivity.
  - intros n. reflexivity.
Defined.

(** X26: one failing probe ends the whole search: when the first device of
    the first scan is a mug and pairing with it raises, [find_mugs] leaves
    the client, prints the error and returns; the other devices of that scan
    are not looked at and no further scan is made. *)
Theorem find_mugs_stops_at_failed_pairing :
  forall (radio : Discovery.Radio) (fuel : nat) (s : Discovery.Console)
         (d : Discovery.device) (rest : list Discovery.device)
         (x : bool) (e : exn),
    Discovery.discover radio (Discovery.asked s) = Ok (d :: rest) ->
    Discovery.name d = Some Discovery.mug_name ->
    Discovery.aenter radio d (1 + Discovery.asked s) = Ok tt ->
    Discovery.is_connected radio (2 + Discovery.asked s) = Ok x ->
    Discovery.pair radio (3 + Discovery.asked s) = Err e ->
    Discovery.aexit radio (4 + Discovery.asked s) = Ok tt ->
    Discovery.find_mugs radio (S fuel) s =
    (Returned tt,
     {| Discovery.asked := 5 + Discovery.asked s;
        Discovery.seen :=
          Discovery.seen s ++
          [Discovery.Print "Searching.." "";
           Discovery.Print "." "";
           Discovery.Discover;
           Discovery.Print (Discovery.address d) Discovery.newline;
           Discovery.Print Discovery.mug_name Discovery.newline;
           Discovery.Print (Discovery.details d) Discovery.newline;
           Discovery.Enter d;
           Discovery.IsConnected;
           Discovery.Print ("Connected: " ++ Discovery.str_bool x)
                           Discovery.newline;
           Discovery.Pair;
           Discovery.Exit;
           Discovery.PrintError e] |}).
Proof.
  intros radio fuel s d rest x e Hd Hn He Hi Hp Hx.
  rewrite find_mugs_by_cases, scan_loop_S.
  unfold Discovery.bind at 1, Discovery.print_no_newline, Discovery.say.
  cbn [Discovery.asked Discovery.seen].
  unfold Discovery.bind at 1, Discovery.ask.
  cbn [Discovery.asked Discovery.seen]. rewrite Hd.
  cbn [Discovery.probe_all].
  unfold Discovery.bind at 1 2, Discovery.probe, Discovery.is_mug,
    Discovery.str_name.
  rewrite Hn, String.eqb_refl.
  unfold Discovery.bind, Discovery.print, Discovery.say,
    Discovery.async_with, Discovery.ask.
  cbn [Discovery.asked Discovery.seen].
  cbn [Nat.add] in He, Hi, Hp, Hx.
  rewrite He. cbn [Discovery.asked Discovery.seen].
  rewrite Hi. cbn [Discovery.asked Discovery.seen].
  rewrite Hp. cbn [Discovery.asked Discovery.seen].
  rewrite Hx. cbn [Discovery.asked Discovery.seen].
  rewrite <- !app_assoc. reflexivity.
Qed.

Lemma find_mugs_stops_at_failed_pairing_witness :
  fst (Discovery.find_mugs (Discovery.unpairable_radio [Discovery.a_mug])
         2 Discovery.start) = Returned tt.
Proof.
  rewrite (find_mugs_stops_at_failed_pairing
             (Discovery.unpairable_radio [Discovery.a_mug]) 1
             Discovery.start Discovery.a_mug [] true BleakError
             eq_refl eq_refl eq_refl eq_refl eq_refl eq_refl).
  reflexivity.
Defined.
